(** * The op-batcher channel manager (channel_manager.go)

    A shallow embedding of [channelManager] and of its operations, and the
    properties of it that the specification states.

    - Machine integers are [Z] with the wrap-around written out
      ([uint64], [int64]).
    - [*channel] values are pointers ([ptr]) into a store of channel objects
      ([heap]): the channel queue, [currentChannel] and the tx index share
      the objects they point to, as in the Go code.
    - Every operation is a function from the manager state to an [outcome]:
      either it returns a value and a new state, or it panics.
    - The channel type (channel.go, channel_builder.go), the codec and the
      configuration provider are not part of this file's source: the manager
      is developed over their interface ([ChannelAPI]); one instance of the
      interface, written from the specification, gives concrete runs. *)

From Stdlib Require Import ZArith Lia List Bool String.
From stdpp Require Import base decidable option list strings pretty gmap fin_maps.

Local Open Scope Z_scope.

(** ** Machine integers *)

(** Go's [uint64]: arithmetic modulo 2^64. *)
Definition uint64 (z : Z) : Z := z mod 2 ^ 64.

(** Go's [int] on a 64-bit platform: two's complement on 64 bits. *)
Definition int64 (z : Z) : Z := (z + 2 ^ 63) mod 2 ^ 64 - 2 ^ 63.

Definition is_int (z : Z) : Prop := - 2 ^ 63 <= z < 2 ^ 63.

(** ** Data model *)

(** [common.Hash] (go-ethereum): 32 bytes, as a 256-bit number;
    [common.Hash{}] is zero. *)
Definition Hash : Type := N.
Definition zeroHash : Hash := 0%N.

(** Modelled from the spec: [eth.BlockID] (op-service/eth) is not among the
    sources; section 3: a (hash, number) pair, the number a [uint64]. *)
Record BlockID : Type := mkBlockID {
  id_Hash : Hash;
  id_Number : Z
}.

(** Modelled from the spec: [types.Block] (go-ethereum) is not among the
    sources; section 3: a value carrying hash, parent hash, block number,
    timestamp and a derivable L1 block info.  [Number()] is a big integer. *)
Record Block : Type := mkBlock {
  blk_Hash : Hash;
  blk_ParentHash : Hash;
  blk_Number : Z;
  blk_Time : Z;
  blk_L1Origin : BlockID;
  blk_SequenceNumber : Z
}.

(** [block.NumberU64()] and [block.Number().Uint64()]: the low 64 bits. *)
Definition NumberU64 (b : Block) : Z := uint64 (blk_Number b).

(** [eth.ToBlockID]: the hash and [NumberU64()] of a block. *)
Definition ToBlockID (b : Block) : BlockID :=
  {| id_Hash := blk_Hash b; id_Number := NumberU64 b |}.

(** Modelled from the spec: [eth.L2BlockRef] is not among the sources;
    section 3: (hash, number, parentHash, time, l1Origin, sequenceNumber). *)
Record L2BlockRef : Type := mkL2BlockRef {
  ref_Hash : Hash;
  ref_Number : Z;
  ref_ParentHash : Hash;
  ref_Time : Z;
  ref_L1Origin : BlockID;
  ref_SequenceNumber : Z
}.

(** Modelled from the spec: [eth.SyncStatus] is not among the sources;
    section 3: it contains at least [CurrentL1.number] and
    [SafeL2.{hash,number}]. *)
Record SyncStatus : Type := mkSyncStatus {
  CurrentL1 : BlockID;
  SafeL2 : L2BlockRef
}.

(** Modelled from the spec: [ChannelConfig] is declared in channel_config.go;
    the fields are those of section 3 of the specification. *)
Record ChannelConfig : Type := mkChannelConfig {
  UseBlobs : bool;
  BatchType : Z;
  CompressionAlgo : Z;
  TargetNumFrames : Z;
  MaxFrameSize : Z;
  MaxChannelDuration : Z;
  SubSafetyMargin : Z
}.

(** Go [error] values that cross the manager. *)
Inductive error : Type :=
| EOF                                         (* io.EOF, the no-data sentinel *)
| ErrReorg                                    (* block does not extend existing chain *)
| ErrNoProgress                               (* safe head did not make expected progress *)
| ErrExternal (code : nat)                    (* an error of the codec or of the factory *)
| ErrCreatingChannelOut (cause : error)       (* "creating channel out: %w" *)
| ErrAddingBlock (i : Z) (cause : error)      (* "adding block[%d] to channel builder: %w" *)
| ErrCreatingFrames (cause : error).          (* "creating frames with channel builder: %w" *)

(** What [channel.AddBlock] reports: the block was added, the channel was
    already full ([ChannelFullError]), or another error. *)
Inductive addResult : Type :=
| AddOk
| AddFull
| AddErr (e : error).

(** A [*channel]: the address of a channel object. *)
Definition ptr : Type := nat.

(** The interface of channel.go that channel_manager.go calls.  Methods that
    mutate their receiver return the new channel value. *)
Class ChannelAPI (channel ChannelOut txData : Type) : Type := {
  newChannel : ChannelConfig -> Z -> ChannelOut -> channel;
  builder_blocks : channel -> list Block;        (* c.channelBuilder.blocks *)
  maxInclusionBlock : channel -> Z;
  HasTxData : channel -> bool;
  NextTxData : channel -> txData * channel;
  ch_TxFailed : string -> channel -> channel;
  ch_TxConfirmed : string -> BlockID -> channel -> bool * channel;
  NoneSubmitted : channel -> bool;
  IsFull : channel -> bool;
  isFullySubmitted : channel -> bool;
  isTimedOut : channel -> bool;
  LatestL1Origin : channel -> BlockID;
  LatestL2 : channel -> L2BlockRef;
  AddBlock : Block -> channel -> addResult * channel;
  CheckTimeout : Z -> channel -> channel;
  OutputFrames : channel -> option error * channel;
  tx_ID_String : txData -> string;               (* tx.ID().String() *)
  zeroTxData : txData;                           (* txData{} *)
  emptyTxData : txData
}.

(** ** Block queue *)

(** Modelled from the spec: the generic queue (op-service/queue) is not among
    the sources; section 3: a FIFO with random-access peek by position and
    bulk dequeue from the head.  The names are those channel_manager.go
    calls. *)
Module queue.

(** [Peek]: the head, if any. *)
Definition Peek (q : list Block) : option Block := head q.

(** [PeekN]: the element at position [n], if [0 <= n < len]. *)
Definition PeekN (n : Z) (q : list Block) : option Block :=
  if n <? 0 then None else q !! Z.to_nat n.

(** [DequeueN]: remove the first [n] elements; fails when there are fewer. *)
Definition DequeueN (n : Z) (q : list Block) : option (list Block * list Block) :=
  if (n <? 0) || (Z.of_nat (length q) <? n) then None
  else Some (take (Z.to_nat n) q, drop (Z.to_nat n) q).

Definition Enqueue (b : Block) (q : list Block) : list Block := q ++ [b].

Definition Len (q : list Block) : Z := Z.of_nat (length q).

End queue.

(** Indexing a slice with a [uint64] or [int] index: [None] is Go's
    index-out-of-range panic. *)
Definition index {A} (l : list A) (i : Z) : option A :=
  if (i <? 0) || (Z.of_nat (length l) <=? i) then None else l !! Z.to_nat i.

(** ** Outcomes *)

Inductive outcome (S A : Type) : Type :=
| Returned (a : A) (s : S)
| Panicked (msg : string).
Arguments Returned {S A} a s.
Arguments Panicked {S A} msg.

Definition M (S A : Type) : Type := S -> outcome S A.

Definition ret {S A} (a : A) : M S A := fun s => Returned a s.

Definition bind {S A B} (m : M S A) (k : A -> M S B) : M S B :=
  fun s => match m s with
           | Returned a s' => k a s'
           | Panicked msg => Panicked msg
           end.

Definition panic {S A} (msg : string) : M S A := fun _ => Panicked msg.
Definition get {S} : M S S := fun s => Returned s s.
Definition modify {S} (f : S -> S) : M S unit := fun s => Returned tt (f s).

Notation "'let*' x := m 'in' k" := (bind m (fun x => k))
  (at level 10, x name, m at level 100, k at level 200, only parsing).
Notation "m >> k" := (bind m (fun _ => k))
  (at level 100, k at level 200, right associativity, only parsing).

(** ** The manager *)

Section Manager.

Context {channel ChannelOut txData : Type}.
Context `{API : !ChannelAPI channel ChannelOut txData}.

(** [cfgProvider.ChannelConfig()]: the answer to the [k]-th query. *)
Variable cfgProvider : nat -> ChannelConfig.

(** [outFactory(cfg, rollupCfg)]; the [nat] is the number of channels created
    so far and stands for the entropy a factory draws a channel id from. *)
Variable outFactory : ChannelConfig -> nat -> error + ChannelOut.

(** [channelManager].  The lock, the logger, the metrics sink and the rollup
    configuration carry no state of the manager.  [heap], [allocated] and
    [cfgQueries] are the surroundings of the struct: the channel objects the
    pointers refer to, how many were created, and how many times the
    configuration provider was asked. *)
Record channelManager : Type := mkManager {
  blocks : list Block;
  blockCursor : Z;
  l1OriginLastSubmittedChannel : BlockID;
  defaultCfg : ChannelConfig;
  tip : Hash;
  currentChannel : option ptr;
  channelQueue : list ptr;
  txChannels : gmap string ptr;
  heap : ptr -> channel;
  allocated : nat;
  cfgQueries : nat
}.

Definition set_blocks (v : list Block) (s : channelManager) : channelManager :=
  mkManager v (blockCursor s) (l1OriginLastSubmittedChannel s) (defaultCfg s) (tip s)
    (currentChannel s) (channelQueue s) (txChannels s) (heap s) (allocated s) (cfgQueries s).

Definition set_blockCursor (v : Z) (s : channelManager) : channelManager :=
  mkManager (blocks s) v (l1OriginLastSubmittedChannel s) (defaultCfg s) (tip s)
    (currentChannel s) (channelQueue s) (txChannels s) (heap s) (allocated s) (cfgQueries s).

Definition set_l1Origin (v : BlockID) (s : channelManager) : channelManager :=
  mkManager (blocks s) (blockCursor s) v (defaultCfg s) (tip s)
    (currentChannel s) (channelQueue s) (txChannels s) (heap s) (allocated s) (cfgQueries s).

Definition set_defaultCfg (v : ChannelConfig) (s : channelManager) : channelManager :=
  mkManager (blocks s) (blockCursor s) (l1OriginLastSubmittedChannel s) v (tip s)
    (currentChannel s) (channelQueue s) (txChannels s) (heap s) (allocated s) (cfgQueries s).

Definition set_tip (v : Hash) (s : channelManager) : channelManager :=
  mkManager (blocks s) (blockCursor s) (l1OriginLastSubmittedChannel s) (defaultCfg s) v
    (currentChannel s) (channelQueue s) (txChannels s) (heap s) (allocated s) (cfgQueries s).

Definition set_currentChannel (v : option ptr) (s : channelManager) : channelManager :=
  mkManager (blocks s) (blockCursor s) (l1OriginLastSubmittedChannel s) (defaultCfg s) (tip s)
    v (channelQueue s) (txChannels s) (heap s) (allocated s) (cfgQueries s).

Definition set_channelQueue (v : list ptr) (s : channelManager) : channelManager :=
  mkManager (blocks s) (blockCursor s) (l1OriginLastSubmittedChannel s) (defaultCfg s) (tip s)
    (currentChannel s) v (txChannels s) (heap s) (allocated s) (cfgQueries s).

Definition set_txChannels (v : gmap string ptr) (s : channelManager) : channelManager :=
  mkManager (blocks s) (blockCursor s) (l1OriginLastSubmittedChannel s) (defaultCfg s) (tip s)
    (currentChannel s) (channelQueue s) v (heap s) (allocated s) (cfgQueries s).

(** [*p = c]: overwrite the channel object at [p]. *)
Definition store (p : ptr) (c : channel) (s : channelManager) : channelManager :=
  mkManager (blocks s) (blockCursor s) (l1OriginLastSubmittedChannel s) (defaultCfg s) (tip s)
    (currentChannel s) (channelQueue s) (txChannels s)
    (fun q => if Nat.eqb q p then c else heap s q) (allocated s) (cfgQueries s).

(** A new channel object: its address is the allocation counter. *)
Definition alloc (c : channel) (s : channelManager) : ptr * channelManager :=
  (allocated s,
   mkManager (blocks s) (blockCursor s) (l1OriginLastSubmittedChannel s) (defaultCfg s) (tip s)
     (currentChannel s) (channelQueue s) (txChannels s)
     (fun q => if Nat.eqb q (allocated s) then c else heap s q) (S (allocated s)) (cfgQueries s)).

(** One call of [s.cfgProvider.ChannelConfig()]. *)
Definition queryCfg (s : channelManager) : ChannelConfig * channelManager :=
  (cfgProvider (cfgQueries s),
   mkManager (blocks s) (blockCursor s) (l1OriginLastSubmittedChannel s) (defaultCfg s) (tip s)
     (currentChannel s) (channelQueue s) (txChannels s) (heap s) (allocated s) (S (cfgQueries s))).

Abbreviation Op := (M channelManager).

(** [NewChannelManager]: the provider is asked once for [defaultCfg]. *)
Definition NewChannelManager (h : ptr -> channel) : channelManager :=
  mkManager [] 0 (mkBlockID zeroHash 0) (cfgProvider 0) zeroHash None [] ∅ h 0 1.

(** [Clear]. *)
Definition Clear (l1Origin : BlockID) : Op unit :=
  modify (fun s =>
    mkManager [] 0 l1Origin (defaultCfg s) zeroHash None [] ∅
      (heap s) (allocated s) (cfgQueries s)).

(** [pendingBlocks]. *)
Definition pendingBlocks (s : channelManager) : Z :=
  int64 (queue.Len (blocks s) - blockCursor s).

(** [rewindToBlock]. *)
Definition rewindToBlock (block : BlockID) : Op unit :=
  fun s =>
    match index (blocks s) 0 with
    | None => Panicked "index out of range"
    | Some b0 =>
        let idx := uint64 (id_Number block - NumberU64 b0) in
        match index (blocks s) idx with
        | None => Panicked "index out of range"
        | Some b =>
            if (blk_Hash b =? id_Hash block)%N && (idx <? uint64 (blockCursor s))
            then Returned tt (set_blockCursor (int64 idx) s)
            else Panicked "tried to rewind to nonexistent block"
        end
    end.

(** The trimming loop of [handleChannelInvalidated]: cut the queue at the
    first position that holds [c]. *)
Fixpoint trimAt (c : ptr) (q : list ptr) : list ptr :=
  match q with
  | [] => []
  | x :: rest => if Nat.eqb x c then [] else x :: trimAt c rest
  end.

(** [handleChannelInvalidated]. *)
Definition handleChannelInvalidated (c : ptr) : Op unit :=
  let* s := get in
  match builder_blocks (heap s c) with
  | b :: _ => rewindToBlock (ToBlockID b)
  | [] => ret tt
  end >>
  modify (fun s => set_channelQueue (trimAt c (channelQueue s)) s) >>
  modify (set_currentChannel None).

(** [TxFailed]. *)
Definition TxFailed (id : string) : Op unit :=
  let* s := get in
  match txChannels s !! id with
  | Some p =>
      modify (fun s => set_txChannels (delete id (txChannels s)) s) >>
      modify (fun s => store p (ch_TxFailed id (heap s p)) s)
  | None => ret tt
  end.

(** [TxConfirmed]. *)
Definition TxConfirmed (id : string) (inclusionBlock : BlockID) : Op unit :=
  let* s := get in
  match txChannels s !! id with
  | Some p =>
      modify (fun s => set_txChannels (delete id (txChannels s)) s) >>
      let* s := get in
      let (timedOut, c') := ch_TxConfirmed id inclusionBlock (heap s p) in
      modify (store p c') >>
      if timedOut then handleChannelInvalidated p else ret tt
  | None => ret tt
  end.

(** [nextTxData]. *)
Definition nextTxData (ch : option ptr) : Op (txData * option error) :=
  fun s =>
    match ch with
    | None => Returned (zeroTxData, Some EOF) s
    | Some p =>
        if negb (HasTxData (heap s p)) then Returned (zeroTxData, Some EOF) s
        else
          let (tx, c') := NextTxData (heap s p) in
          let s1 := store p c' s in
          let s2 :=
            if id_Number (l1OriginLastSubmittedChannel s1) <? id_Number (LatestL1Origin c')
            then set_l1Origin (LatestL1Origin c') s1 else s1 in
          Returned (tx, None)
            (set_txChannels (<[tx_ID_String tx := p]> (txChannels s2)) s2)
    end.

(** The scan of [getReadyChannel]: the first channel of the queue with tx data. *)
Fixpoint firstWithTxData (h : ptr -> channel) (q : list ptr) : option ptr :=
  match q with
  | [] => None
  | p :: rest => if HasTxData (h p) then Some p else firstWithTxData h rest
  end.

(** [ensureChannelWithSpace]. *)
Definition ensureChannelWithSpace (l1Head : BlockID) : Op (option error) :=
  fun s =>
    let create :=
      let cfg := defaultCfg s in
      match outFactory cfg (allocated s) with
      | inl err => Returned (Some (ErrCreatingChannelOut err)) s
      | inr channelOut =>
          let pc := newChannel cfg (id_Number (l1OriginLastSubmittedChannel s)) channelOut in
          let (p, s1) := alloc pc s in
          Returned None
            (set_channelQueue (channelQueue s1 ++ [p]) (set_currentChannel (Some p) s1))
      end in
    match currentChannel s with
    | Some p => if negb (IsFull (heap s p)) then Returned None s else create
    | None => create
    end.

(** [registerL1Block]. *)
Definition registerL1Block (l1Head : BlockID) : Op unit :=
  fun s =>
    match currentChannel s with
    | None => Panicked "nil pointer dereference"
    | Some p => Returned tt (store p (CheckTimeout (id_Number l1Head) (heap s p)) s)
    end.

(** The loop of [processBlocks] over the blocks from the cursor on: [i] is
    the loop index, [c] the current channel, [blocksAdded] the counter.  The
    result is the error returned from inside the loop, if any. *)
Fixpoint addBlocks (pending : list Block) (i : Z) (c : channel) (blocksAdded : Z)
  : option error * channel * Z :=
  match pending with
  | [] => (None, c, blocksAdded)
  | block :: rest =>
      match AddBlock block c with
      | (AddFull, c') => (None, c', blocksAdded)
      | (AddErr e, c') => (Some (ErrAddingBlock i e), c', blocksAdded)
      | (AddOk, c') =>
          if IsFull c' then (None, c', int64 (blocksAdded + 1))
          else addBlocks rest (int64 (i + 1)) c' (int64 (blocksAdded + 1))
      end
  end.

(** The blocks [PeekN] yields for [i = blockCursor, blockCursor + 1, ...]. *)
Definition fromCursor (s : channelManager) : list Block :=
  if blockCursor s <? 0 then [] else drop (Z.to_nat (blockCursor s)) (blocks s).

(** [processBlocks]. *)
Definition processBlocks : Op (option error) :=
  fun s =>
    match currentChannel s with
    | None => Panicked "nil pointer dereference"
    | Some p =>
        match addBlocks (fromCursor s) (blockCursor s) (heap s p) 0 with
        | (Some err, c', _) => Returned (Some err) (store p c' s)
        | (None, c', blocksAdded) =>
            Returned None
              (set_blockCursor (int64 (blockCursor s + blocksAdded)) (store p c' s))
        end
    end.

(** [outputFrames]; what follows the [IsFull] test only logs. *)
Definition outputFrames : Op (option error) :=
  fun s =>
    match currentChannel s with
    | None => Panicked "nil pointer dereference"
    | Some p =>
        match OutputFrames (heap s p) with
        | (Some err, c') => Returned (Some (ErrCreatingFrames err)) (store p c' s)
        | (None, c') => Returned None (store p c' s)
        end
    end.

(** [getReadyChannel]. *)
Definition getReadyChannel (l1Head : BlockID) : Op (option ptr * option error) :=
  let* s := get in
  match firstWithTxData (heap s) (channelQueue s) with
  | Some ch => ret (Some ch, None)
  | None =>
      if pendingBlocks s =? 0 then ret (None, Some EOF)
      else
        let* e1 := ensureChannelWithSpace l1Head in
        match e1 with
        | Some err => ret (None, Some err)
        | None =>
            let* e2 := processBlocks in
            match e2 with
            | Some err => ret (None, Some err)
            | None =>
                registerL1Block l1Head >>
                let* e3 := outputFrames in
                match e3 with
                | Some err => ret (None, Some err)
                | None =>
                    let* s := get in
                    match currentChannel s with
                    | None => panic "nil pointer dereference"
                    | Some p =>
                        if HasTxData (heap s p) then ret (Some p, None)
                        else ret (None, Some EOF)
                    end
                end
            end
        end
  end.

(** The tail of [TxData] once a channel and no error is in hand. *)
Definition sendNext (r : option ptr * option error) : Op (txData * option error) :=
  match r with
  | (_, Some err) => ret (emptyTxData, Some err)
  | (ch, None) => nextTxData ch
  end.

(** [TxData]. *)
Definition TxData (l1Head : BlockID) : Op (txData * option error) :=
  let* r := getReadyChannel l1Head in
  match r with
  | (_, Some err) => ret (emptyTxData, Some err)
  | (None, None) => panic "nil pointer dereference"
  | (Some ch, None) =>
      let* s := get in
      if negb (NoneSubmitted (heap s ch)) then nextTxData (Some ch)
      else
        fun s =>
          let (newCfg, s1) := queryCfg s in
          if Bool.eqb (UseBlobs newCfg) (UseBlobs (defaultCfg s1))
          then nextTxData (Some ch) s1
          else
            (handleChannelInvalidated ch >>
             modify (set_defaultCfg newCfg) >>
             let* r2 := getReadyChannel l1Head in
             sendNext r2) s1
  end.

(** [AddL2Block]. *)
Definition AddL2Block (block : Block) : Op (option error) :=
  fun s =>
    if negb (tip s =? zeroHash)%N && negb (tip s =? blk_ParentHash block)%N
    then Returned (Some ErrReorg) s
    else Returned None (set_tip (blk_Hash block) (set_blocks (queue.Enqueue block (blocks s)) s)).

(** [pruneSafeBlocks]. *)
Definition pruneSafeBlocks (newSafeHead : L2BlockRef) : Op unit :=
  fun s =>
    match queue.Peek (blocks s) with
    | None => Returned tt s
    | Some oldestBlock =>
        let next := uint64 (ref_Number newSafeHead + 1) in
        if next =? NumberU64 oldestBlock then Returned tt s
        else if next <? NumberU64 oldestBlock then Clear (ref_L1Origin newSafeHead) s
        else
          let numBlocksToDequeue := uint64 (next - NumberU64 oldestBlock) in
          if uint64 (queue.Len (blocks s)) <? numBlocksToDequeue
          then
            (* the warning reads [s.blocks[s.blocks.Len()-1]] *)
            match index (blocks s) (int64 (queue.Len (blocks s) - 1)) with
            | None => Panicked "index out of range"
            | Some _ => Clear (ref_L1Origin newSafeHead) s
            end
          else
            match index (blocks s) (uint64 (numBlocksToDequeue - 1)) with
            | None => Panicked "index out of range"
            | Some b =>
                if negb (blk_Hash b =? ref_Hash newSafeHead)%N
                then Clear (ref_L1Origin newSafeHead) s
                else
                  let n := int64 numBlocksToDequeue in
                  let blocks' :=
                    match queue.DequeueN n (blocks s) with
                    | Some (_, rest) => rest
                    | None => blocks s
                    end in
                  let cursor' := int64 (blockCursor s - n) in
                  if cursor' <? 0 then Panicked "negative blockCursor"
                  else Returned tt (set_blockCursor cursor' (set_blocks blocks' s))
            end
    end.

(** The loop of [pruneChannels]: how many leading channels are at or below
    the safe head. *)
Fixpoint safePrefix (h : ptr -> channel) (newSafeHead : L2BlockRef) (q : list ptr) : nat :=
  match q with
  | [] => 0%nat
  | ch :: rest =>
      if ref_Number newSafeHead <? ref_Number (LatestL2 (h ch)) then 0%nat
      else S (safePrefix h newSafeHead rest)
  end.

(** [pruneChannels]. *)
Definition pruneChannels (newSafeHead : L2BlockRef) : Op unit :=
  modify (fun s =>
    set_channelQueue
      (drop (safePrefix (heap s) newSafeHead (channelQueue s)) (channelQueue s)) s).

(** The test [CheckExpectedProgress] applies to one channel. *)
Definition stalled (syncStatus : SyncStatus) (ch : channel) : bool :=
  isFullySubmitted ch && negb (isTimedOut ch)
  && (maxInclusionBlock ch <? id_Number (CurrentL1 syncStatus))
  && (ref_Number (SafeL2 syncStatus) <? ref_Number (LatestL2 ch)).

(** The same test as a proposition: the channel is fully submitted, it has
    not timed out, the current L1 block is past its [maxInclusionBlock] and
    the safe L2 block is before its latest L2 block. *)
Definition no_progress (syncStatus : SyncStatus) (ch : channel) : Prop :=
  isFullySubmitted ch = true /\ isTimedOut ch = false
  /\ maxInclusionBlock ch < id_Number (CurrentL1 syncStatus)
  /\ ref_Number (SafeL2 syncStatus) < ref_Number (LatestL2 ch).

Fixpoint checkChannels (syncStatus : SyncStatus) (h : ptr -> channel) (q : list ptr)
  : option error :=
  match q with
  | [] => None
  | ch :: rest =>
      if stalled syncStatus (h ch) then Some ErrNoProgress
      else checkChannels syncStatus h rest
  end.

(** [CheckExpectedProgress]. *)
Definition CheckExpectedProgress (syncStatus : SyncStatus) : Op (option error) :=
  fun s => Returned (checkChannels syncStatus (heap s) (channelQueue s)) s.

(** ** Runs of the public operations *)

(** One call of an operation of the manager. *)
Inductive call : Type :=
| CallAddL2Block (block : Block)
| CallTxData (l1Head : BlockID)
| CallTxFailed (id : string)
| CallTxConfirmed (id : string) (inclusionBlock : BlockID)
| CallPruneSafeBlocks (newSafeHead : L2BlockRef)
| CallPruneChannels (newSafeHead : L2BlockRef).

(** A call as an operation; what it returns to the caller is dropped. *)
Definition exec (c : call) : Op unit :=
  match c with
  | CallAddL2Block block => AddL2Block block >> ret tt
  | CallTxData l1Head => TxData l1Head >> ret tt
  | CallTxFailed id => TxFailed id
  | CallTxConfirmed id inclusionBlock => TxConfirmed id inclusionBlock
  | CallPruneSafeBlocks newSafeHead => pruneSafeBlocks newSafeHead
  | CallPruneChannels newSafeHead => pruneChannels newSafeHead
  end.

Fixpoint run (cs : list call) : Op unit :=
  match cs with
  | [] => ret tt
  | c :: rest => exec c >> run rest
  end.

(** A fresh manager, or one that was just cleared. *)
Definition initial (s : channelManager) : Prop :=
  (exists h, s = NewChannelManager h)
  \/ (exists s0 l1Origin, Clear l1Origin s0 = Returned tt s).

(** The states the public operations lead to. *)
Definition reachable (s : channelManager) : Prop :=
  exists s0 cs, initial s0 /\ run cs s0 = Returned tt s.




Definition current_in_queue (s : channelManager) : Prop :=
  forall p, currentChannel s = Some p -> p ∈ channelQueue s.


(** [s'] differs from [s] at most in channel objects, in the cursor and in
    channels appended to the queue (the last of which is then current): what
    the steps of [getReadyChannel] can do to a state. *)
Record grows (s s' : channelManager) : Prop := mkGrows {
  grows_blocks : blocks s' = blocks s;
  grows_l1Origin : l1OriginLastSubmittedChannel s' = l1OriginLastSubmittedChannel s;
  grows_defaultCfg : defaultCfg s' = defaultCfg s;
  grows_tip : tip s' = tip s;
  grows_txChannels : txChannels s' = txChannels s;
  grows_cfgQueries : cfgQueries s' = cfgQueries s;
  grows_allocated : (allocated s <= allocated s')%nat;
  grows_queue : exists added, channelQueue s' = channelQueue s ++ added;
  grows_current : current_in_queue s -> current_in_queue s';
  grows_same :
    allocated s' = allocated s ->
    channelQueue s' = channelQueue s /\ currentChannel s' = currentChannel s
}.

(** The position of [block] in the block queue, by number relative to the
    head and with the hash checked: [None] when the block is not there. *)
Definition blockPosition (block : BlockID) (s : channelManager) : option Z :=
  match blocks s with
  | [] => None
  | b0 :: _ =>
      let idx := uint64 (id_Number block - NumberU64 b0) in
      match index (blocks s) idx with
      | Some b => if (blk_Hash b =? id_Hash block)%N then Some idx else None
      | None => None
      end
  end.

(** The manager holds no channel and no transaction. *)
Definition channelless (s : channelManager) : Prop :=
  currentChannel s = None /\ channelQueue s = [] /\ txChannels s = ∅.

(** ** Invariants of the manager *)

(** The cursor is an index into the block queue or its length (the comment
    at the field [blockCursor]), and the queue has a length a Go [int]
    holds. *)
Definition bounded (s : channelManager) : Prop :=
  0 <= blockCursor s <= queue.Len (blocks s) /\ queue.Len (blocks s) < 2 ^ 63.

(** A block queue as the parent-hash check of [AddL2Block] builds it: each
    block names its predecessor as parent, unless the hash of the predecessor
    is the zero hash, for which the check is skipped. *)
Fixpoint linked (bs : list Block) : Prop :=
  match bs with
  | b :: rest =>
      match rest with
      | b' :: _ => blk_Hash b = zeroHash \/ blk_ParentHash b' = blk_Hash b
      | [] => True
      end
      /\ linked rest
  | [] => True
  end.

(** The block queue is linked and [tip] is the hash of its last block. *)
Definition chained (s : channelManager) : Prop :=
  linked (blocks s) /\ forall b, last (blocks s) = Some b -> tip s = blk_Hash b.

(** No channel is in the queue twice, and every channel of the queue was
    created by [ensureChannelWithSpace]. *)
Definition distinct_queue (s : channelManager) : Prop :=
  NoDup (channelQueue s) /\ forall p, p ∈ channelQueue s -> (p < allocated s)%nat.

(** What a call of [TxData] and the steps it is made of can do to a state:
    the blocks and [tip] stay, the L1 origin of the last submitted channel
    does not go down, no channel is forgotten by the allocator, and the two
    invariants [bounded] and [distinct_queue] are kept. *)
Record evolves (s s' : channelManager) : Prop := mkEvolves {
  evolves_blocks : blocks s' = blocks s;
  evolves_tip : tip s' = tip s;
  evolves_l1Origin :
    id_Number (l1OriginLastSubmittedChannel s)
    <= id_Number (l1OriginLastSubmittedChannel s');
  evolves_allocated : (allocated s <= allocated s')%nat;
  evolves_bounded : bounded s -> bounded s';
  evolves_distinct : distinct_queue s -> distinct_queue s'
}.

(** The channel new blocks are written to is the newest channel of the
    queue, when the queue holds any. *)
Definition current_at_tail (s : channelManager) : Prop :=
  forall p, currentChannel s = Some p ->
            channelQueue s = [] \/ last (channelQueue s) = Some p.

(** A call of [TxData]. *)
Definition isTxData (c : call) : bool :=
  match c with
  | CallTxData _ => true
  | _ => false
  end.

End Manager.

Arguments channelManager channel : clear implicits.

(** [l2BlockRefFromBlockAndL1Info], the L1 block info being the one the
    block carries. *)
Definition l2BlockRefFromBlockAndL1Info (block : Block) : L2BlockRef :=
  {| ref_Hash := blk_Hash block;
     ref_Number := NumberU64 block;
     ref_ParentHash := blk_ParentHash block;
     ref_Time := blk_Time block;
     ref_L1Origin := blk_L1Origin block;
     ref_SequenceNumber := blk_SequenceNumber block |}.

(** ** One channel implementation *)

(** Modelled from the spec: channel.go and channel_builder.go are missing
    from the sources at hand; the channel below follows sections 4.1 to 4.3 of
    the specification.  The codec is an external collaborator whose encoding is
    opaque: the one here emits one frame per accepted block and is full once
    it has accepted [TargetNumFrames] blocks. *)
Module SpecChannel.

(** Modelled from the spec: a frame, the unit of payload (glossary). *)
Record frame : Type := mkFrame {
  frame_channel : nat;
  frame_number : nat;
  frame_data : Hash
}.

(** Modelled from the spec: the Channel-Out adapter of section 4.1. *)
Record ChannelOut : Type := mkChannelOut {
  co_id : nat;
  co_budget : Z;
  co_accepted : list Block;
  co_framed : nat
}.

(** Modelled from the spec: the codec has reached its budget (section
    4.1). *)
Definition co_full (co : ChannelOut) : bool :=
  co_budget co <=? Z.of_nat (length (co_accepted co)).

(** Modelled from the spec: the codec's [AddBlock]; [ChannelFullError] once
    the budget is reached (section 4.1). *)
Definition co_AddBlock (b : Block) (co : ChannelOut) : addResult * ChannelOut :=
  if co_full co then (AddFull, co)
  else (AddOk, mkChannelOut (co_id co) (co_budget co) (co_accepted co ++ [b]) (co_framed co)).

(** One frame per block, numbered from [n]. *)
Fixpoint framesFrom (id n : nat) (bs : list Block) : list frame :=
  match bs with
  | [] => []
  | b :: rest => mkFrame id n (blk_Hash b) :: framesFrom id (S n) rest
  end.

(** Modelled from the spec: the codec's [OutputFrames] materialises the
    frames of the blocks accepted since the last call (section 4.1). *)
Definition co_OutputFrames (co : ChannelOut) : list frame * ChannelOut :=
  (framesFrom (co_id co) (co_framed co) (drop (co_framed co) (co_accepted co)),
   mkChannelOut (co_id co) (co_budget co) (co_accepted co) (length (co_accepted co))).

(** Modelled from the spec: why a builder is full (section 4.2: size,
    duration, frame budget or codec-specific). *)
Inductive fullReason : Type :=
| DurationTimeout
| CodecFull.

(** Modelled from the spec: the channel builder of section 4.2 and, around
    it, the channel of section 4.3. *)
Record channel : Type := mkChannel {
  cfg : ChannelConfig;
  out : ChannelOut;
  cb_blocks : list Block;
  oldestL1Origin : BlockID;
  latestL1Origin : BlockID;
  oldestL2 : L2BlockRef;
  latestL2 : L2BlockRef;
  openL1Block : Z;
  fullErr : option fullReason;
  pendingFrames : list frame;
  inflight : gmap string frame;
  dispatched : nat;
  confirmedCount : nat;
  totalFrames : nat;
  timedOut : bool
}.

(** Modelled from the spec: what [NextTxData] hands out, a transaction id
    and the frame it carries (section 4.3). *)
Record txData : Type := mkTxData {
  tx_id : string;
  tx_frame : option frame
}.

(** The zero value of [eth.L2BlockRef]. *)
Definition zeroRef : L2BlockRef := mkL2BlockRef 0%N 0 0%N 0 (mkBlockID 0%N 0) 0.

(** Modelled from the spec: a channel is created open and empty, seeded
    with the L1 block number at which construction begins (sections 4.2 and
    4.4.4). *)
Definition newChannel (c : ChannelConfig) (openL1 : Z) (co : ChannelOut) : channel :=
  mkChannel c co [] (mkBlockID 0%N 0) (mkBlockID 0%N 0) zeroRef zeroRef openL1 None
    [] ∅ 0 0 0 false.

(** Modelled from the spec: [IsFull], a pure accessor (section 4.2). *)
Definition IsFull (ch : channel) : bool :=
  match fullErr ch with Some _ => true | None => false end.

(** Modelled from the spec: [AddBlock] delegates to the codec; on success it
    extends the block list, the L1 origin range and the latest L2 reference;
    on [ChannelFullError] it leaves the state untouched (section 4.2). *)
Definition AddBlock (b : Block) (ch : channel) : addResult * channel :=
  if IsFull ch then (AddFull, ch)
  else
    match co_AddBlock b (out ch) with
    | (AddOk, co') =>
        let first := match cb_blocks ch with [] => true | _ => false end in
        (AddOk,
         mkChannel (cfg ch) co' (cb_blocks ch ++ [b])
           (if first then blk_L1Origin b else oldestL1Origin ch)
           (if id_Number (latestL1Origin ch) <? id_Number (blk_L1Origin b)
            then blk_L1Origin b else latestL1Origin ch)
           (if first then l2BlockRefFromBlockAndL1Info b else oldestL2 ch)
           (l2BlockRefFromBlockAndL1Info b)
           (openL1Block ch) (fullErr ch) (pendingFrames ch) (inflight ch)
           (dispatched ch) (confirmedCount ch) (totalFrames ch) (timedOut ch))
    | (r, _) => (r, ch)
    end.

(** Modelled from the spec: a channel never un-fulls and the first full
    reason is preserved (sections 3 and 4.2). *)
Definition markFull (r : fullReason) (ch : channel) : channel :=
  mkChannel (cfg ch) (out ch) (cb_blocks ch) (oldestL1Origin ch) (latestL1Origin ch)
    (oldestL2 ch) (latestL2 ch) (openL1Block ch)
    (match fullErr ch with Some r0 => Some r0 | None => Some r end)
    (pendingFrames ch) (inflight ch) (dispatched ch) (confirmedCount ch)
    (totalFrames ch) (timedOut ch).

(** Modelled from the spec: [CheckTimeout] marks the builder full by
    duration once [currentL1 - openL1Block >= maxChannelDuration]
    (section 4.2). *)
Definition CheckTimeout (currentL1 : Z) (ch : channel) : channel :=
  if MaxChannelDuration (cfg ch) <=? currentL1 - openL1Block ch
  then markFull DurationTimeout ch else ch.

(** Modelled from the spec: [OutputFrames] has the codec materialise frames,
    which join the pending frames; the builder is full when the codec says
    so (sections 4.2 and 4.3). *)
Definition OutputFrames (ch : channel) : option error * channel :=
  let (fs, co') := co_OutputFrames (out ch) in
  let ch' :=
    mkChannel (cfg ch) co' (cb_blocks ch) (oldestL1Origin ch) (latestL1Origin ch)
      (oldestL2 ch) (latestL2 ch) (openL1Block ch) (fullErr ch)
      (pendingFrames ch ++ fs) (inflight ch) (dispatched ch) (confirmedCount ch)
      (totalFrames ch + length fs) (timedOut ch) in
  (None, if co_full co' then markFull CodecFull ch' else ch').

(** Modelled from the spec: [HasTxData], there is a frame awaiting dispatch
    (a failed frame is back among the pending ones) (section 4.3). *)
Definition HasTxData (ch : channel) : bool :=
  match pendingFrames ch with [] => false | _ => true end.

(** Modelled from the spec: a transaction id is string-serializable and
    never reused (section 3): the channel id and the number of the
    dispatch. *)
Definition txIDString (id n : nat) : string := pretty id +:+ ":" +:+ pretty n.

(** Modelled from the spec: [NextTxData] pops one frame, gives it a fresh
    id and records it in flight (section 4.3). *)
Definition NextTxData (ch : channel) : txData * channel :=
  match pendingFrames ch with
  | [] => (mkTxData "" None, ch)
  | f :: rest =>
      let id := txIDString (co_id (out ch)) (dispatched ch) in
      (mkTxData id (Some f),
       mkChannel (cfg ch) (out ch) (cb_blocks ch) (oldestL1Origin ch) (latestL1Origin ch)
         (oldestL2 ch) (latestL2 ch) (openL1Block ch) (fullErr ch)
         rest (<[id := f]> (inflight ch)) (S (dispatched ch)) (confirmedCount ch)
         (totalFrames ch) (timedOut ch))
  end.

(** Modelled from the spec: [TxFailed] moves the frame from the in-flight
    map back to the head of the pending frames (section 4.3). *)
Definition TxFailed (id : string) (ch : channel) : channel :=
  match inflight ch !! id with
  | None => ch
  | Some f =>
      mkChannel (cfg ch) (out ch) (cb_blocks ch) (oldestL1Origin ch) (latestL1Origin ch)
        (oldestL2 ch) (latestL2 ch) (openL1Block ch) (fullErr ch)
        (f :: pendingFrames ch) (delete id (inflight ch)) (dispatched ch)
        (confirmedCount ch) (totalFrames ch) (timedOut ch)
  end.

(** Modelled from the spec:
    [maxInclusionBlock = openL1Block + maxChannelDuration - subSafetyMargin]
    (section 4.3). *)
Definition maxInclusionBlock (ch : channel) : Z :=
  openL1Block ch + MaxChannelDuration (cfg ch) - SubSafetyMargin (cfg ch).

(** Modelled from the spec: [TxConfirmed] removes the frame from the
    in-flight map and counts it; when the inclusion block is past
    [maxInclusionBlock] it latches [timedOut] and returns true; an unknown
    id is ignored (section 4.3). *)
Definition TxConfirmed (id : string) (inclusionBlock : BlockID) (ch : channel)
  : bool * channel :=
  match inflight ch !! id with
  | None => (false, ch)
  | Some _ =>
      let late := maxInclusionBlock ch <? id_Number inclusionBlock in
      (late,
       mkChannel (cfg ch) (out ch) (cb_blocks ch) (oldestL1Origin ch) (latestL1Origin ch)
         (oldestL2 ch) (latestL2 ch) (openL1Block ch) (fullErr ch)
         (pendingFrames ch) (delete id (inflight ch)) (dispatched ch)
         (S (confirmedCount ch)) (totalFrames ch) (timedOut ch || late))
  end.

(** Modelled from the spec: [NoneSubmitted], nothing confirmed, nothing in
    flight, no frame ever dispatched (section 4.3). *)
Definition NoneSubmitted (ch : channel) : bool :=
  Nat.eqb (confirmedCount ch) 0 && bool_decide (inflight ch = ∅)
  && Nat.eqb (dispatched ch) 0.

(** Modelled from the spec: [isFullySubmitted],
    [confirmedCount == totalFrames] and the builder is full (section 4.3). *)
Definition isFullySubmitted (ch : channel) : bool :=
  Nat.eqb (confirmedCount ch) (totalFrames ch) && IsFull ch.

#[export] Instance api : ChannelAPI channel ChannelOut txData :=
  Build_ChannelAPI channel ChannelOut txData
    newChannel cb_blocks maxInclusionBlock HasTxData NextTxData TxFailed TxConfirmed
    NoneSubmitted IsFull isFullySubmitted timedOut latestL1Origin latestL2
    AddBlock CheckTimeout OutputFrames tx_id (mkTxData "" None) (mkTxData "" None).

(** Modelled from the spec: a Channel-Out factory (section 6) for the codec
    above; it never fails, and the channel id is the number of channels
    created before. *)
Definition outFactory (c : ChannelConfig) (n : nat) : error + ChannelOut :=
  inr (mkChannelOut n (TargetNumFrames c) [] 0).

End SpecChannel.

(** ** Concrete runs *)

(** Blocks, heads and two configuration providers for concrete runs of the
    manager over [SpecChannel]. *)
Module Scenario.

Import SpecChannel.

(** Three frames per channel, calldata. *)
Definition cfg0 : ChannelConfig := mkChannelConfig false 0 0 3 1000 100 10.

(** The same budget, blobs. *)
Definition cfgBlobs : ChannelConfig := mkChannelConfig true 0 0 3 1000 100 10.

(** A provider that always answers [cfg0]. *)
Definition steady (k : nat) : ChannelConfig := cfg0.

(** A provider that answers [cfg0] once and [cfgBlobs] from then on. *)
Definition flipping (k : nat) : ChannelConfig :=
  if Nat.eqb k 0 then cfg0 else cfgBlobs.

(** Block [#n]: hash [1000 + n], parent [#(n-1)]. *)
Definition blk (n : Z) : Block :=
  mkBlock (Z.to_N (1000 + n)) (Z.to_N (999 + n)) n (2 * n) (mkBlockID 77%N 90) 0.

Definition l1 (n : Z) : BlockID := mkBlockID (Z.to_N (5000 + n)) n.

(** The L2 reference of block [#n]. *)
Definition safe (n : Z) : L2BlockRef := l2BlockRefFromBlockAndL1Info (blk n).

Definition noChannels : ptr -> channel :=
  fun _ => newChannel cfg0 0 (mkChannelOut 0 0 [] 0).

Definition fresh : channelManager channel := NewChannelManager steady noChannels.

Definition freshFlipping : channelManager channel :=
  NewChannelManager flipping noChannels.

(** The state a run ends in (the start state if it panics). *)
Definition after (provider : nat -> ChannelConfig) (cs : list call)
    (s0 : channelManager channel) : channelManager channel :=
  match run provider outFactory cs s0 with
  | Returned _ s => s
  | Panicked _ => s0
  end.

Definition add3 : list call :=
  [CallAddL2Block (blk 10); CallAddL2Block (blk 11); CallAddL2Block (blk 12)].

Definition add6 : list call :=
  add3 ++ [CallAddL2Block (blk 13); CallAddL2Block (blk 14); CallAddL2Block (blk 15)].

(** Blocks #10..#12 queued, nothing built yet. *)
Definition queued3 : channelManager channel := after steady add3 fresh.

(** The same under the flipping provider. *)
Definition queued3Flipping : channelManager channel := after flipping add3 freshFlipping.

(** [queued3] after [getReadyChannel]: channel 0 holds the three blocks. *)
Definition built3 : channelManager channel :=
  match getReadyChannel outFactory (l1 95) queued3 with
  | Returned _ s => s
  | Panicked _ => queued3
  end.

Definition built3Flipping : channelManager channel :=
  match getReadyChannel outFactory (l1 95) queued3Flipping with
  | Returned _ s => s
  | Panicked _ => queued3Flipping
  end.

(** Blocks #10..#12 in channel 0, whose first frame is in flight. *)
Definition sent1 : channelManager channel :=
  after steady (add3 ++ [CallTxData (l1 95)]) fresh.

(** Blocks #10..#15 in channels 0 and 1; all frames of channel 0 and the
    first frame of channel 1 are in flight. *)
Definition twoChannelsRun : list call :=
  add6 ++ [CallTxData (l1 95); CallTxData (l1 95); CallTxData (l1 95); CallTxData (l1 95)].

Definition twoChannels : channelManager channel := after steady twoChannelsRun fresh.

(** Blocks #10..#12 in channel 0; two of its frames were sent and the first
    was confirmed too late: channel 0 is invalidated, the cursor is back at
    block #10, and the second frame is still in flight. *)
Definition lateConfirmedRun : list call :=
  add3 ++ [CallTxData (l1 95); CallTxData (l1 95); CallTxConfirmed "0:0" (l1 200)].

Definition lateConfirmed : channelManager channel := after steady lateConfirmedRun fresh.

(** Blocks #10 and #11 became safe while channel 0 (blocks #10..#12) is in
    the queue. *)
Definition halfSafeRun : list call :=
  add3 ++ [CallTxData (l1 95); CallPruneSafeBlocks (safe 11); CallPruneChannels (safe 11)].

Definition halfSafe : channelManager channel := after steady halfSafeRun fresh.

(** One block sent, then its channel pruned. *)
Definition prunedRun : list call :=
  [CallAddL2Block (blk 10); CallTxData (l1 95); CallPruneChannels (safe 10)].

Definition pruned : channelManager channel := after steady prunedRun fresh.

(** [twoChannels], then channel 0 is pruned at safe head #12, the late
    confirmation of its first frame invalidates it and moves the cursor back
    to block #10, and three more frames are sent: the last two of channel 1
    and the first of the new channel 2, which holds blocks #10..#12 again.
    The queue is channel 1 (latest L2 block #15) followed by channel 2
    (latest L2 block #12). *)
Definition requeuedRun : list call :=
  twoChannelsRun
  ++ [CallPruneChannels (safe 12); CallTxConfirmed "0:0" (l1 200);
      CallTxData (l1 95); CallTxData (l1 95); CallTxData (l1 95)].

Definition requeued : channelManager channel := after steady requeuedRun fresh.

(** Blocks #10..#12 in channel 0, all three frames sent and confirmed in
    time: the channel is fully submitted. *)
Definition confirmed3 : channelManager channel :=
  after steady
    (add3 ++ [CallTxData (l1 95); CallTxData (l1 95); CallTxData (l1 95);
              CallTxConfirmed "0:0" (l1 80); CallTxConfirmed "0:1" (l1 81);
              CallTxConfirmed "0:2" (l1 82)])
    fresh.

(** [sent1] after [Clear], and block #20 queued after that. *)
Definition cleared : channelManager channel :=
  match Clear (l1 96) sent1 with
  | Returned _ s => s
  | Panicked _ => sent1
  end.

Definition restarted : channelManager channel :=
  after steady [CallAddL2Block (blk 20)] cleared.

(** [sent1] after the first frame of channel 0 was confirmed in time. *)
Definition confirmed1 : channelManager channel :=
  after steady [CallTxConfirmed "0:0" (l1 80)] sent1.

(** [pruned] after channel 0, which is no longer in the queue, was
    invalidated. *)
Definition prunedInvalidated : channelManager channel :=
  match handleChannelInvalidated 0%nat pruned with
  | Returned _ s => s
  | Panicked _ => pruned
  end.

(** [twoChannels] after the channels up to block #12 were pruned. *)
Definition prunedTwo : channelManager channel :=
  after steady [CallPruneChannels (safe 12)] twoChannels.

(** Blocks #10..#13 queued and an empty channel 0 of three frames, before
    and after [processBlocks]. *)
Definition ensured4 : channelManager channel :=
  match
    ensureChannelWithSpace outFactory (l1 95)
      (after steady (add3 ++ [CallAddL2Block (blk 13)]) fresh)
  with
  | Returned _ s => s
  | Panicked _ => fresh
  end.

Definition processed4 : channelManager channel :=
  match processBlocks ensured4 with
  | Returned _ s => s
  | Panicked _ => ensured4
  end.

(** A factory that always fails. *)
Definition failingFactory (c : ChannelConfig) (n : nat) : error + ChannelOut :=
  inl (ErrExternal 7).

End Scenario.

(** * Properties *)

Section Properties.

Context {channel ChannelOut txData : Type}.
Context `{API : !ChannelAPI channel ChannelOut txData}.
Variable cfgProvider : nat -> ChannelConfig.
Variable outFactory : ChannelConfig -> nat -> error + ChannelOut.

Implicit Types (s : channelManager channel) (q : list ptr) (h : ptr -> channel).

(** *** Machine integers *)

Lemma uint64_small z : 0 <= z < 2 ^ 64 -> uint64 z = z.
Proof. intros Hz. unfold uint64. apply Z.mod_small. exact Hz. Qed.

Lemma int64_small z : - 2 ^ 63 <= z < 2 ^ 63 -> int64 z = z.
Proof. intros Hz. unfold int64. rewrite Z.mod_small; lia. Qed.

Lemma uint64_range z : 0 <= uint64 z < 2 ^ 64.
Proof. unfold uint64. apply Z.mod_pos_bound. lia. Qed.

Lemma index_Some {A} (l : list A) i x :
  index l i = Some x <-> 0 <= i < Z.of_nat (length l) /\ l !! Z.to_nat i = Some x.
Proof.
  unfold index.
  destruct (i <? 0) eqn:Hneg; [apply Z.ltb_lt in Hneg | apply Z.ltb_ge in Hneg]; simpl.
  - split; [discriminate | lia].
  - destruct (Z.of_nat (length l) <=? i) eqn:Hlen;
      [apply Z.leb_le in Hlen | apply Z.leb_gt in Hlen].
    + split; [discriminate | lia].
    + split; [intros Hx; split; [lia | exact Hx] | intros [_ Hx]; exact Hx].
Qed.

(** *** The loop of processBlocks *)

(** The loop of [processBlocks] asks [PeekN] for the positions
    [blockCursor], [blockCursor + 1], ... until it answers no: it reads
    exactly the blocks of [fromCursor]. *)
Lemma fromCursor_PeekN s (k : nat) :
  0 <= blockCursor s ->
  queue.PeekN (blockCursor s + Z.of_nat k) (blocks s) = fromCursor s !! k.
Proof.
  intros Hpos. unfold queue.PeekN, fromCursor.
  destruct (Z.ltb_spec (blockCursor s + Z.of_nat k) 0) as [Hneg | _]; [lia |].
  destruct (Z.ltb_spec (blockCursor s) 0) as [Hneg | _]; [lia |].
  rewrite lookup_drop. f_equal. lia.
Qed.

Lemma fromCursor_negative s :
  blockCursor s < 0 ->
  queue.PeekN (blockCursor s) (blocks s) = None /\ fromCursor s = [].
Proof.
  intros Hneg. unfold queue.PeekN, fromCursor.
  apply Z.ltb_lt in Hneg. rewrite Hneg. auto.
Qed.

(** *** AddL2Block *)

(** C7. [AddL2Block] returns [ErrReorg] and leaves the whole state as it was
    when [tip] is not the zero hash and differs from the parent hash of the
    block; in every other case it appends the block at the tail of the block
    queue, sets [tip] to the hash of the block and returns no error. *)
Theorem AddL2Block_reorg_or_append (block : Block) s :
  AddL2Block block s =
    if bool_decide (tip s <> zeroHash /\ tip s <> blk_ParentHash block)
    then Returned (Some ErrReorg) s
    else Returned None
           (mkManager (blocks s ++ [block]) (blockCursor s)
              (l1OriginLastSubmittedChannel s) (defaultCfg s) (blk_Hash block)
              (currentChannel s) (channelQueue s) (txChannels s)
              (heap s) (allocated s) (cfgQueries s)).
Proof.
  unfold AddL2Block.
  destruct (N.eqb_spec (tip s) zeroHash) as [Hz | Hz];
    destruct (N.eqb_spec (tip s) (blk_ParentHash block)) as [Hp | Hp]; simpl.
  - rewrite bool_decide_eq_false_2 by tauto. reflexivity.
  - rewrite bool_decide_eq_false_2 by tauto. reflexivity.
  - rewrite bool_decide_eq_false_2 by tauto. reflexivity.
  - rewrite bool_decide_eq_true_2 by tauto. reflexivity.
Qed.

(** *** CheckExpectedProgress *)

Lemma stalled_spec syncStatus ch :
  stalled syncStatus ch = true <-> no_progress syncStatus ch.
Proof.
  unfold stalled, no_progress.
  rewrite !andb_true_iff, negb_true_iff, !Z.ltb_lt. tauto.
Qed.

Lemma checkChannels_spec syncStatus h q :
  (checkChannels syncStatus h q = Some ErrNoProgress
     <-> exists p, p ∈ q /\ no_progress syncStatus (h p))
  /\ (checkChannels syncStatus h q = None
     <-> forall p, p ∈ q -> ~ no_progress syncStatus (h p)).
Proof.
  induction q as [| p q [IHerr IHnil]]; simpl.
  - split; split.
    + discriminate.
    + intros (p & Hp & _). inversion Hp.
    + intros _ p Hp. inversion Hp.
    + reflexivity.
  - destruct (stalled syncStatus (h p)) eqn:Hst.
    + apply stalled_spec in Hst. split; split.
      * intros _. exists p. split; [left | exact Hst].
      * reflexivity.
      * discriminate.
      * intros Hall. exfalso. apply (Hall p); [left | exact Hst].
    + assert (Hno : ~ no_progress syncStatus (h p)).
      { intros Hn. apply stalled_spec in Hn. congruence. }
      split; split.
      * intros He. apply IHerr in He as (p' & Hp' & Hn). exists p'. split; [right |]; assumption.
      * intros (p' & Hp' & Hn). apply IHerr.
        apply elem_of_cons in Hp' as [-> | Hp']; [contradiction | eauto].
      * intros Hq p' Hp'. apply elem_of_cons in Hp' as [-> | Hp']; [exact Hno |].
        revert p' Hp'. apply IHnil. exact Hq.
      * intros Hall. apply IHnil. intros p' Hp'. apply Hall. right. exact Hp'.
Qed.

(** C9. [CheckExpectedProgress] returns an error exactly when some channel
    of the queue is fully submitted, not timed out, has the current L1 number
    above its [maxInclusionBlock] and the safe L2 number below its latest L2
    number; it returns nil otherwise; the state it returns is the state it
    was called in. *)
Theorem CheckExpectedProgress_iff (syncStatus : SyncStatus) s :
  exists r,
    CheckExpectedProgress syncStatus s = Returned r s
    /\ (r = Some ErrNoProgress
        <-> exists p, p ∈ channelQueue s /\ no_progress syncStatus (heap s p))
    /\ (r = None
        <-> ~ exists p, p ∈ channelQueue s /\ no_progress syncStatus (heap s p)).
Proof.
  exists (checkChannels syncStatus (heap s) (channelQueue s)).
  destruct (checkChannels_spec syncStatus (heap s) (channelQueue s)) as [Herr Hnil].
  split; [reflexivity | split; [exact Herr |]].
  rewrite Hnil. split.
  - intros Hall (p & Hp & Hn). exact (Hall p Hp Hn).
  - intros Hno p Hp Hn. apply Hno. eauto.
Qed.

(** *** getReadyChannel *)

Lemma firstWithTxData_split h older ch newer :
  Forall (fun p => HasTxData (h p) = false) older ->
  HasTxData (h ch) = true ->
  firstWithTxData h (older ++ ch :: newer) = Some ch.
Proof.
  induction 1 as [| p older Hp _ IH]; simpl; intros Hch.
  - rewrite Hch. reflexivity.
  - rewrite Hp. apply IH. exact Hch.
Qed.

Lemma firstWithTxData_none h q :
  Forall (fun p => HasTxData (h p) = false) q -> firstWithTxData h q = None.
Proof. induction 1 as [| p q Hp _ IH]; simpl; [| rewrite Hp]; auto. Qed.

Lemma firstWithTxData_Some h q ch :
  firstWithTxData h q = Some ch -> ch ∈ q /\ HasTxData (h ch) = true.
Proof.
  induction q as [| p q IH]; simpl; [discriminate |].
  destruct (HasTxData (h p)) eqn:Hp.
  - intros [= <-]. split; [left | exact Hp].
  - intros Hq. destruct (IH Hq). split; [right |]; assumption.
Qed.

(** C3. When some channel of the queue has tx data, [getReadyChannel]
    returns the first such channel in queue order, with no error and the
    state untouched; when no channel has tx data and
    [len(blocks) - blockCursor] is zero it returns no channel and [io.EOF],
    again with the state untouched. *)
Theorem getReadyChannel_first_or_no_data (l1Head : BlockID) s :
  (forall older ch newer,
      channelQueue s = older ++ ch :: newer ->
      Forall (fun p => HasTxData (heap s p) = false) older ->
      HasTxData (heap s ch) = true ->
      getReadyChannel outFactory l1Head s = Returned (Some ch, None) s)
  /\ (Forall (fun p => HasTxData (heap s p) = false) (channelQueue s) ->
      queue.Len (blocks s) - blockCursor s = 0 ->
      getReadyChannel outFactory l1Head s = Returned (None, Some EOF) s).
Proof.
  split.
  - intros older ch newer Hq Hold Hch.
    unfold getReadyChannel, bind, get, ret.
    rewrite Hq, (firstWithTxData_split _ _ _ _ Hold Hch). reflexivity.
  - intros Hnone Hpend.
    unfold getReadyChannel, bind, get, ret.
    rewrite (firstWithTxData_none _ _ Hnone).
    unfold pendingBlocks. rewrite Hpend. reflexivity.
Qed.

(** *** rewindToBlock and handleChannelInvalidated *)

Lemma blockPosition_Some block s pos :
  blockPosition block s = Some pos ->
  exists b0 rest b,
    blocks s = b0 :: rest
    /\ pos = uint64 (id_Number block - NumberU64 b0)
    /\ index (blocks s) pos = Some b
    /\ blk_Hash b = id_Hash block.
Proof.
  unfold blockPosition. destruct (blocks s) as [| b0 rest] eqn:Hbs; [discriminate |].
  destruct (index (b0 :: rest) _) as [b |] eqn:Hidx; [| discriminate].
  destruct (N.eqb_spec (blk_Hash b) (id_Hash block)) as [Hh | Hh]; [| discriminate].
  intros [= <-]. exists b0, rest, b. auto.
Qed.

Lemma index_head {A} (x : A) l : index (x :: l) 0 = Some x.
Proof. reflexivity. Qed.

(** The block is in the queue, below the cursor: the cursor moves to it. *)
Lemma rewindToBlock_below_cursor block s pos :
  is_int (blockCursor s) ->
  blockPosition block s = Some pos ->
  pos < blockCursor s ->
  rewindToBlock block s = Returned tt (set_blockCursor pos s).
Proof.
  intros Hint Hpos Hlt.
  apply blockPosition_Some in Hpos as (b0 & rest & b & Hbs & -> & Hidx & Hhash).
  unfold rewindToBlock. rewrite Hbs, index_head. rewrite Hbs in Hidx. rewrite Hidx.
  pose proof (uint64_range (id_Number block - NumberU64 b0)) as Hr.
  unfold is_int in Hint.
  rewrite (uint64_small (blockCursor s)) by lia.
  apply N.eqb_eq in Hhash. rewrite Hhash. simpl.
  apply Z.ltb_lt in Hlt as Hlt'. rewrite Hlt'.
  rewrite int64_small by lia. reflexivity.
Qed.

(** The block is not in the queue: a panic. *)
Lemma rewindToBlock_absent block s :
  blockPosition block s = None ->
  exists msg, rewindToBlock block s = Panicked msg.
Proof.
  unfold blockPosition, rewindToBlock.
  destruct (blocks s) as [| b0 rest]; [eauto |].
  rewrite index_head.
  destruct (index (b0 :: rest) _) as [b |]; [| eauto].
  destruct (blk_Hash b =? id_Hash block)%N; [discriminate |]. simpl. eauto.
Qed.

(** The block is in the queue, at the cursor or after it: a panic too. *)
Lemma rewindToBlock_at_or_after_cursor block s pos :
  0 <= blockCursor s < 2 ^ 63 ->
  blockPosition block s = Some pos ->
  blockCursor s <= pos ->
  rewindToBlock block s = Panicked "tried to rewind to nonexistent block".
Proof.
  intros Hint Hpos Hle.
  apply blockPosition_Some in Hpos as (b0 & rest & b & Hbs & -> & Hidx & Hhash).
  unfold rewindToBlock. rewrite Hbs, index_head. rewrite Hbs in Hidx. rewrite Hidx.
  rewrite (uint64_small (blockCursor s)) by lia.
  apply Z.ltb_ge in Hle. rewrite Hle, andb_false_r. reflexivity.
Qed.

Lemma trimAt_first c older newer :
  c ∉ older -> trimAt c (older ++ c :: newer) = older.
Proof.
  induction older as [| x older IH]; simpl; intros Hc.
  - rewrite Nat.eqb_refl. reflexivity.
  - apply not_elem_of_cons in Hc as [Hne Hc].
    destruct (Nat.eqb_spec x c) as [-> | _]; [contradiction |].
    rewrite IH by exact Hc. reflexivity.
Qed.

Lemma trimAt_sublist c q p : p ∈ trimAt c q -> p ∈ q /\ p <> c.
Proof.
  induction q as [| x q IH]; simpl; [intros H; inversion H |].
  destruct (Nat.eqb_spec x c) as [-> | Hne]; [intros H; inversion H |].
  intros [-> | Hp]%elem_of_cons.
  - split; [left | exact Hne].
  - destruct (IH Hp). split; [right |]; assumption.
Qed.

(** C6. For a channel [c] of the channel queue (at its first occurrence):
    when its builder has no block, [handleChannelInvalidated] cuts the queue
    down to the channels older than [c], sets [currentChannel] to nil and
    leaves the cursor; when the builder has blocks and the first of them is
    in the block queue below the cursor, it does the same and moves the
    cursor to the position of that block; when the first block is not in the
    block queue, it panics. *)
Theorem handleChannelInvalidated_trims (c : ptr) s older newer :
  channelQueue s = older ++ c :: newer ->
  c ∉ older ->
  is_int (blockCursor s) ->
  match builder_blocks (heap s c) with
  | [] =>
      handleChannelInvalidated c s =
        Returned tt (set_currentChannel None (set_channelQueue older s))
  | b :: _ =>
      match blockPosition (ToBlockID b) s with
      | None => exists msg, handleChannelInvalidated c s = Panicked msg
      | Some pos =>
          pos < blockCursor s ->
          handleChannelInvalidated c s =
            Returned tt
              (set_currentChannel None (set_channelQueue older (set_blockCursor pos s)))
      end
  end.
Proof.
  intros Hq Hfirst Hint.
  unfold handleChannelInvalidated, bind, get, modify, ret.
  destruct (builder_blocks (heap s c)) as [| b bs].
  - unfold set_currentChannel, set_channelQueue; simpl.
    rewrite Hq, trimAt_first by exact Hfirst. reflexivity.
  - destruct (blockPosition (ToBlockID b) s) as [pos |] eqn:Hpos.
    + intros Hlt. rewrite (rewindToBlock_below_cursor _ _ _ Hint Hpos Hlt).
      unfold set_currentChannel, set_channelQueue, set_blockCursor; simpl.
      rewrite Hq, trimAt_first by exact Hfirst. reflexivity.
    + destruct (rewindToBlock_absent _ _ Hpos) as [msg Hmsg].
      exists msg. rewrite Hmsg. reflexivity.
Qed.

(** *** pruneSafeBlocks *)

(** C4. In a state whose block queue starts with [oldestBlock] and whose
    cursor is a non-negative [int], let
    [n = newSafeHead.number + 1 - oldestBlock.number] (no wrap-around of the
    [uint64] sum) with [0 < n <= len(blocks)] and
    [blocks[n-1].hash = newSafeHead.hash].  When [n <= blockCursor],
    [pruneSafeBlocks] dequeues exactly [n] blocks from the head and sets the
    cursor to [blockCursor - n]; when [blockCursor < n] it panics with
    "negative blockCursor". *)
Theorem pruneSafeBlocks_dequeues (newSafeHead : L2BlockRef) s oldestBlock rest b :
  blocks s = oldestBlock :: rest ->
  0 <= ref_Number newSafeHead /\ ref_Number newSafeHead + 1 < 2 ^ 64 ->
  0 <= blockCursor s < 2 ^ 63 ->
  queue.Len (blocks s) < 2 ^ 63 ->
  let n := ref_Number newSafeHead + 1 - NumberU64 oldestBlock in
  0 < n <= queue.Len (blocks s) ->
  blocks s !! Z.to_nat (n - 1) = Some b ->
  blk_Hash b = ref_Hash newSafeHead ->
  pruneSafeBlocks newSafeHead s =
    if n <=? blockCursor s
    then Returned tt (set_blockCursor (blockCursor s - n)
                        (set_blocks (drop (Z.to_nat n) (blocks s)) s))
    else Panicked "negative blockCursor".
Proof.
  intros Hbs Hsafe Hcur Hlen n Hn Hb Hhash.
  unfold queue.Len in *.
  assert (Hold : 0 <= NumberU64 oldestBlock < 2 ^ 64) by apply uint64_range.
  unfold pruneSafeBlocks. rewrite Hbs at 1. simpl queue.Peek. cbv iota.
  rewrite (uint64_small (ref_Number newSafeHead + 1)) by lia.
  destruct (Z.eqb_spec (ref_Number newSafeHead + 1) (NumberU64 oldestBlock)) as [He | _];
    [lia |].
  destruct (Z.ltb_spec (ref_Number newSafeHead + 1) (NumberU64 oldestBlock)) as [Hl | _];
    [lia |].
  fold n. rewrite (uint64_small n) by lia.
  unfold queue.Len. rewrite (uint64_small (Z.of_nat (length (blocks s)))) by lia.
  destruct (Z.ltb_spec (Z.of_nat (length (blocks s))) n) as [Hl | _]; [lia |].
  rewrite (uint64_small (n - 1)) by lia.
  assert (Hidx : index (blocks s) (n - 1) = Some b).
  { apply index_Some. split; [lia | exact Hb]. }
  rewrite Hidx. apply N.eqb_eq in Hhash. rewrite Hhash. simpl.
  rewrite (int64_small n) by lia.
  unfold queue.DequeueN.
  destruct (Z.ltb_spec n 0) as [Hl | _]; [lia |].
  destruct (Z.ltb_spec (Z.of_nat (length (blocks s))) n) as [Hl | _]; [lia |].
  simpl. rewrite (int64_small (blockCursor s - n)) by lia.
  destruct (Z.leb_spec n (blockCursor s)) as [Hle | Hgt].
  - destruct (Z.ltb_spec (blockCursor s - n) 0) as [Hl | _]; [lia |]. reflexivity.
  - destruct (Z.ltb_spec (blockCursor s - n) 0) as [_ | Hl]; [| lia]. reflexivity.
Qed.

(** *** pruneChannels *)

Lemma safePrefix_split h newSafeHead q :
  let k := safePrefix h newSafeHead q in
  Forall (fun p => ref_Number (LatestL2 (h p)) <= ref_Number newSafeHead) (take k q)
  /\ match drop k q with
     | [] => True
     | p :: _ => ref_Number newSafeHead < ref_Number (LatestL2 (h p))
     end.
Proof.
  induction q as [| p q IH]; simpl.
  - split; [constructor | exact I].
  - destruct (Z.ltb_spec (ref_Number newSafeHead) (ref_Number (LatestL2 (h p)))) as [Hlt | Hge];
      simpl.
    + split; [constructor | exact Hlt].
    + destruct IH as [IH1 IH2]. split; [constructor; assumption | exact IH2].
Qed.

(** C8. [pruneChannels] removes from the head of the channel queue the
    channels whose latest L2 number is at most the number of the new safe
    head, and stops at the first channel whose latest L2 number is above it:
    that channel and all channels behind it stay.  The block queue and the
    cursor are left as they were. *)
Theorem pruneChannels_drops_safe_prefix (newSafeHead : L2BlockRef) s :
  exists removed kept,
    channelQueue s = removed ++ kept
    /\ pruneChannels newSafeHead s = Returned tt (set_channelQueue kept s)
    /\ Forall (fun p => ref_Number (LatestL2 (heap s p)) <= ref_Number newSafeHead) removed
    /\ match kept with
       | [] => True
       | p :: _ => ref_Number newSafeHead < ref_Number (LatestL2 (heap s p))
       end
    /\ blocks (set_channelQueue kept s) = blocks s
    /\ blockCursor (set_channelQueue kept s) = blockCursor s.
Proof.
  set (k := safePrefix (heap s) newSafeHead (channelQueue s)).
  exists (take k (channelQueue s)), (drop k (channelQueue s)).
  destruct (safePrefix_split (heap s) newSafeHead (channelQueue s)) as [Hrem Hkept].
  split; [symmetry; apply take_drop |].
  split; [reflexivity |].
  split; [exact Hrem |].
  split; [exact Hkept |].
  split; reflexivity.
Qed.

(** *** What the steps of [getReadyChannel] leave alone *)

Lemma grows_refl s : grows s s.
Proof.
  constructor; try reflexivity; auto.
  exists []. symmetry. apply app_nil_r.
Qed.

Lemma grows_trans s1 s2 s3 : grows s1 s2 -> grows s2 s3 -> grows s1 s3.
Proof.
  intros [] []. constructor; try congruence.
  - lia.
  - destruct grows_queue0 as [a1 H1], grows_queue1 as [a2 H2].
    exists (a1 ++ a2). rewrite H2, H1. symmetry. apply app_assoc.
  - auto.
  - intros Heq. assert (allocated s2 = allocated s1) by lia.
    assert (allocated s3 = allocated s2) by lia.
    destruct (grows_same0 ltac:(assumption)), (grows_same1 ltac:(assumption)).
    split; congruence.
Qed.

Lemma grows_store s p c : grows s (store p c s).
Proof.
  constructor; try reflexivity; auto.
  exists []. symmetry. apply app_nil_r.
Qed.

Lemma grows_set_blockCursor s v : grows s (set_blockCursor v s).
Proof.
  constructor; try reflexivity; auto.
  exists []. symmetry. apply app_nil_r.
Qed.

Lemma ensureChannelWithSpace_grows l1Head s e s' :
  ensureChannelWithSpace outFactory l1Head s = Returned e s' ->
  grows s s' /\ (e = None -> exists p, currentChannel s' = Some p).
Proof.
  unfold ensureChannelWithSpace.
  assert (Hcreate :
    match outFactory (defaultCfg s) (allocated s) with
    | inl err => Returned (Some (ErrCreatingChannelOut err)) s
    | inr channelOut =>
        let pc := newChannel (defaultCfg s)
                    (id_Number (l1OriginLastSubmittedChannel s)) channelOut in
        let (p, s1) := alloc pc s in
        Returned None
          (set_channelQueue (channelQueue s1 ++ [p]) (set_currentChannel (Some p) s1))
    end = Returned e s' ->
    grows s s' /\ (e = None -> exists p, currentChannel s' = Some p)).
  { destruct (outFactory (defaultCfg s) (allocated s)) as [err | co]; simpl.
    - intros [= <- <-]. split; [apply grows_refl | discriminate].
    - intros [= <- <-]. split; [| simpl; eauto].
      constructor; simpl; try reflexivity.
      + lia.
      + eauto.
      + intros _ p [= <-]. apply elem_of_app. right. left.
      + intros Heq. lia. }
  destruct (currentChannel s) as [p |] eqn:Hcur; [| exact Hcreate].
  destruct (IsFull (heap s p)); simpl; [exact Hcreate |].
  intros [= <- <-]. split; [apply grows_refl | eauto].
Qed.

Lemma processBlocks_grows s e s' :
  processBlocks s = Returned e s' ->
  grows s s' /\ currentChannel s' = currentChannel s.
Proof.
  unfold processBlocks. destruct (currentChannel s) as [p |] eqn:Hcur; [| discriminate].
  destruct (addBlocks _ _ _ _) as [[[err |] c'] added]; intros [= <- <-].
  - split; [apply grows_store | exact Hcur].
  - split; [| exact Hcur].
    eapply grows_trans; [apply grows_store | apply grows_set_blockCursor].
Qed.

Lemma registerL1Block_grows l1Head s u s' :
  registerL1Block l1Head s = Returned u s' ->
  grows s s' /\ currentChannel s' = currentChannel s.
Proof.
  unfold registerL1Block. destruct (currentChannel s) as [p |] eqn:Hcur; [| discriminate].
  intros [= <- <-]. split; [apply grows_store | exact Hcur].
Qed.

Lemma outputFrames_grows s e s' :
  outputFrames s = Returned e s' ->
  grows s s' /\ currentChannel s' = currentChannel s.
Proof.
  unfold outputFrames. destruct (currentChannel s) as [p |] eqn:Hcur; [| discriminate].
  destruct (OutputFrames (heap s p)) as [[err |] c']; intros [= <- <-];
    (split; [apply grows_store | exact Hcur]).
Qed.

(** What [getReadyChannel] guarantees when it returns. *)
Lemma getReadyChannel_returns l1Head s r s' :
  getReadyChannel outFactory l1Head s = Returned r s' ->
  grows s s'
  /\ (firstWithTxData (heap s) (channelQueue s) <> None -> s' = s)
  /\ match r with
     | (Some ch, None) =>
         HasTxData (heap s' ch) = true
         /\ (current_in_queue s -> ch ∈ channelQueue s')
     | (None, Some _) => True
     | _ => False
     end.
Proof.
  unfold getReadyChannel, bind, get, ret, panic.
  destruct (firstWithTxData (heap s) (channelQueue s)) as [ch |] eqn:Hscan.
  { intros [= <- <-]. apply firstWithTxData_Some in Hscan as [Hin Hdata].
    split; [apply grows_refl | split; [reflexivity | split; auto]]. }
  destruct (pendingBlocks s =? 0).
  { intros [= <- <-]. split; [apply grows_refl | split; [congruence | exact I]]. }
  destruct (ensureChannelWithSpace outFactory l1Head s) as [e1 s1 |] eqn:H1; [| discriminate].
  apply ensureChannelWithSpace_grows in H1 as [G1 C1].
  destruct e1 as [err |].
  { intros [= <- <-]. split; [exact G1 | split; [congruence | exact I]]. }
  destruct (processBlocks s1) as [e2 s2 |] eqn:H2; [| discriminate].
  apply processBlocks_grows in H2 as [G2 C2].
  destruct e2 as [err |].
  { intros [= <- <-]. split; [eapply grows_trans; eassumption | split; [congruence | exact I]]. }
  destruct (registerL1Block l1Head s2) as [u s3 |] eqn:H3; [| discriminate].
  apply registerL1Block_grows in H3 as [G3 C3].
  destruct (outputFrames s3) as [e3 s4 |] eqn:H4; [| discriminate].
  apply outputFrames_grows in H4 as [G4 C4].
  assert (G : grows s s4).
  { apply (grows_trans _ _ _ G1). apply (grows_trans _ _ _ G2).
    apply (grows_trans _ _ _ G3). exact G4. }
  destruct e3 as [err |].
  { intros [= <- <-]. split; [exact G | split; [congruence | exact I]]. }
  destruct (currentChannel s4) as [p |] eqn:Hcur; [| discriminate].
  destruct (HasTxData (heap s4 p)) eqn:Hdata; intros [= <- <-].
  - split; [exact G | split; [congruence | split; [exact Hdata |]]].
    intros Hciq. apply (grows_current _ _ G Hciq). exact Hcur.
  - split; [exact G | split; [congruence | exact I]].
Qed.

(** What [nextTxData] does on a channel that has tx data. *)
Lemma nextTxData_with_data ch s :
  HasTxData (heap s ch) = true ->
  exists s',
    nextTxData (Some ch) s = Returned (fst (NextTxData (heap s ch)), None) s'
    /\ txChannels s' = <[tx_ID_String (fst (NextTxData (heap s ch))) := ch]> (txChannels s)
    /\ channelQueue s' = channelQueue s
    /\ currentChannel s' = currentChannel s
    /\ defaultCfg s' = defaultCfg s
    /\ cfgQueries s' = cfgQueries s
    /\ allocated s' = allocated s
    /\ blocks s' = blocks s
    /\ blockCursor s' = blockCursor s.
Proof.
  intros Hdata. unfold nextTxData. rewrite Hdata. simpl.
  destruct (NextTxData (heap s ch)) as [tx c']. simpl.
  eexists. split; [reflexivity |].
  destruct (_ <? _); simpl; repeat split; reflexivity.
Qed.

(** What [nextTxData] leaves alone, with or without data. *)
Lemma nextTxData_returns ch s :
  exists r s',
    nextTxData ch s = Returned r s'
    /\ channelQueue s' = channelQueue s
    /\ currentChannel s' = currentChannel s
    /\ defaultCfg s' = defaultCfg s
    /\ cfgQueries s' = cfgQueries s
    /\ allocated s' = allocated s
    /\ (forall id p, txChannels s' !! id = Some p ->
          txChannels s !! id = Some p \/ ch = Some p).
Proof.
  destruct ch as [p |].
  - destruct (HasTxData (heap s p)) eqn:Hdata.
    + destruct (nextTxData_with_data p s Hdata)
        as (s' & Hrun & Htx & Hq & Hc & Hd & Hn & Ha & _).
      exists (fst (NextTxData (heap s p)), None), s'.
      split; [exact Hrun |]. do 5 (split; [assumption |]).
      intros id p'. rewrite Htx, lookup_insert. case_decide; [| auto].
      intros [= <-]. auto.
    + exists (zeroTxData, Some EOF), s. simpl. rewrite Hdata. simpl.
      repeat split; auto.
  - exists (zeroTxData, Some EOF), s. simpl. repeat split; auto.
Qed.

(** What [handleChannelInvalidated] changes when it returns. *)
Lemma handleChannelInvalidated_returns c s u s' :
  handleChannelInvalidated c s = Returned u s' ->
  channelQueue s' = trimAt c (channelQueue s)
  /\ currentChannel s' = None
  /\ txChannels s' = txChannels s
  /\ defaultCfg s' = defaultCfg s
  /\ cfgQueries s' = cfgQueries s
  /\ allocated s' = allocated s.
Proof.
  unfold handleChannelInvalidated, bind, get, modify, ret.
  destruct (builder_blocks (heap s c)) as [| b bs].
  - intros [= <- <-]. repeat split.
  - destruct (rewindToBlock (ToBlockID b) s) as [u1 s1 |] eqn:Hrew; [| discriminate].
    intros [= <- <-]. simpl.
    unfold rewindToBlock in Hrew.
    destruct (index (blocks s) 0); [| discriminate].
    destruct (index (blocks s) _); [| discriminate].
    destruct (_ && _); [| discriminate].
    injection Hrew as _ <-. repeat split.
Qed.

(** *** TxData *)

Lemma TxData_after_ready l1Head s ch s1 :
  getReadyChannel outFactory l1Head s = Returned (Some ch, None) s1 ->
  TxData cfgProvider outFactory l1Head s =
    if negb (NoneSubmitted (heap s1 ch)) then nextTxData (Some ch) s1
    else
      let newCfg := cfgProvider (cfgQueries s1) in
      let s1q := snd (queryCfg cfgProvider s1) in
      if Bool.eqb (UseBlobs newCfg) (UseBlobs (defaultCfg s1))
      then nextTxData (Some ch) s1q
      else
        (handleChannelInvalidated ch >>
         modify (set_defaultCfg newCfg) >>
         (let* r2 := getReadyChannel outFactory l1Head in
          sendNext r2)) s1q.
Proof.
  intros Hready. unfold TxData, bind at 1. rewrite Hready.
  unfold bind at 1, get.
  destruct (NoneSubmitted (heap s1 ch)); reflexivity.
Qed.

(** C1. Let [getReadyChannel] return the channel [ch] (state [s1]).  If [ch]
    has had something submitted, [TxData] returns the next frame of [ch]:
    the provider is not asked and [defaultCfg] stays.  Otherwise the provider
    is asked once; if its config has the [UseBlobs] of [defaultCfg], [TxData]
    returns the next frame of [ch] and the channel queue is the one
    [getReadyChannel] left (the queue of the call, when the channel was found
    by the scan).  Only when [UseBlobs] differs is [ch] invalidated,
    [defaultCfg] set to the new config and [getReadyChannel] run once more,
    whose channel gives the next frame, or whose error (the sentinel
    included) is returned. *)
Theorem TxData_reconfiguration_order (l1Head : BlockID) s ch s1 :
  getReadyChannel outFactory l1Head s = Returned (Some ch, None) s1 ->
  let newCfg := cfgProvider (cfgQueries s) in
  let frame := fst (NextTxData (heap s1 ch)) in
  if negb (NoneSubmitted (heap s1 ch)) then
    exists s2,
      TxData cfgProvider outFactory l1Head s = Returned (frame, None) s2
      /\ nextTxData (Some ch) s1 = Returned (frame, None) s2
      /\ cfgQueries s2 = cfgQueries s
      /\ defaultCfg s2 = defaultCfg s
  else if Bool.eqb (UseBlobs newCfg) (UseBlobs (defaultCfg s)) then
    exists s2,
      TxData cfgProvider outFactory l1Head s = Returned (frame, None) s2
      /\ channelQueue s2 = channelQueue s1
      /\ (firstWithTxData (heap s) (channelQueue s) <> None ->
          channelQueue s2 = channelQueue s)
      /\ cfgQueries s2 = S (cfgQueries s)
      /\ defaultCfg s2 = defaultCfg s
  else
    TxData cfgProvider outFactory l1Head s =
      (handleChannelInvalidated ch >>
       modify (set_defaultCfg newCfg) >>
       (let* r2 := getReadyChannel outFactory l1Head in
        sendNext r2)) (snd (queryCfg cfgProvider s1))
    /\ (forall s2 u,
          handleChannelInvalidated ch (snd (queryCfg cfgProvider s1)) = Returned u s2 ->
          (ch ∉ channelQueue s2) /\ currentChannel s2 = None)
    /\ (forall r s3,
          TxData cfgProvider outFactory l1Head s = Returned r s3 ->
          defaultCfg s3 = newCfg /\ cfgQueries s3 = S (cfgQueries s)).
Proof.
  intros Hready newCfg frame.
  destruct (getReadyChannel_returns _ _ _ _ Hready) as (G & Hfast & Hdata & _).
  pose proof (grows_cfgQueries _ _ G) as Hq.
  pose proof (grows_defaultCfg _ _ G) as Hd.
  rewrite (TxData_after_ready _ _ _ _ Hready). cbv zeta.
  rewrite Hq, Hd. fold newCfg.
  destruct (NoneSubmitted (heap s1 ch)) eqn:Hnone; simpl negb; cbv iota.
  - (* nothing submitted yet: the provider is asked *)
    set (s1q := snd (queryCfg cfgProvider s1)).
    assert (Hq1 : cfgQueries s1q = S (cfgQueries s)) by (simpl; congruence).
    assert (Hd1 : defaultCfg s1q = defaultCfg s) by exact Hd.
    destruct (Bool.eqb (UseBlobs newCfg) (UseBlobs (defaultCfg s))) eqn:Hsame.
    + destruct (nextTxData_with_data ch s1q Hdata)
        as (s2 & Hrun & _ & Hcq & _ & Hdc & Hqc & _).
      exists s2. split; [exact Hrun |]. split; [exact Hcq |].
      split; [intros Hscan; rewrite Hcq; simpl; rewrite (Hfast Hscan); reflexivity |].
      split; congruence.
    + split; [reflexivity |].
      split.
      * intros s2 u Hinv.
        apply handleChannelInvalidated_returns in Hinv as (Hcq & Hcur & _).
        split; [| exact Hcur]. rewrite Hcq. intros Hin.
        apply trimAt_sublist in Hin as [_ Hne]. congruence.
      * intros r s3. unfold bind, modify.
        destruct (handleChannelInvalidated ch s1q) as [u s2 |] eqn:Hinv; [| discriminate].
        apply handleChannelInvalidated_returns in Hinv as (_ & _ & _ & _ & Hq2 & _).
        destruct (getReadyChannel outFactory l1Head (set_defaultCfg newCfg s2))
          as [r2 s4 |] eqn:Hagain; [| discriminate].
        apply getReadyChannel_returns in Hagain as (G2 & _).
        pose proof (grows_cfgQueries _ _ G2) as Hq4.
        pose proof (grows_defaultCfg _ _ G2) as Hd4.
        simpl in Hq4, Hd4.
        destruct r2 as [c2 [err |]]; simpl.
        -- intros [= <- <-]. split; [exact Hd4 | congruence].
        -- destruct (nextTxData_returns c2 s4) as (r' & s5 & Hrun & _ & _ & Hd5 & Hq5 & _).
           rewrite Hrun. intros [= <- <-]. split; congruence.
  - (* the channel is being submitted *)
    destruct (nextTxData_with_data ch s1 Hdata)
      as (s2 & Hrun & _ & _ & _ & Hdc & Hqc & _).
    exists s2. split; [exact Hrun |]. split; [exact Hrun |].
    split; congruence.
Qed.

(** *** The tx index and the channel queue *)





(** [pruneChannels] is not quiet: it drops a channel at or below the safe
    head from the queue and leaves the ids that map to it in the index,
    whatever the channel implementation. *)
Lemma pruneChannels_keeps_index newSafeHead s id p :
  txChannels s !! id = Some p ->
  channelQueue s = [p] ->
  ref_Number (LatestL2 (heap s p)) <= ref_Number newSafeHead ->
  exists s',
    pruneChannels newSafeHead s = Returned tt s'
    /\ txChannels s' !! id = Some p
    /\ channelQueue s' = [].
Proof.
  intros Htx Hq Hsafe. eexists. split; [reflexivity |]. simpl.
  split; [exact Htx |]. rewrite Hq. simpl.
  destruct (Z.ltb_spec (ref_Number newSafeHead) (ref_Number (LatestL2 (heap s p))));
    [lia | reflexivity].
Qed.


(** *** Clear and the configuration of the next channel *)

Lemma sendNext_after_ready l1Head s r s' :
  (let* r2 := getReadyChannel outFactory l1Head in sendNext r2) s = Returned r s' ->
  (allocated s <= allocated s')%nat /\ defaultCfg s' = defaultCfg s.
Proof.
  unfold bind.
  destruct (getReadyChannel outFactory l1Head s) as [r2 s2 |] eqn:Hready; [| discriminate].
  apply getReadyChannel_returns in Hready as (G & _).
  pose proof (grows_allocated _ _ G). pose proof (grows_defaultCfg _ _ G).
  destruct r2 as [c2 [err |]]; simpl.
  - intros [= _ <-]. auto.
  - destruct (nextTxData_returns c2 s2) as (r' & s3 & Hrun & _ & _ & Hd & _ & Ha & _).
    rewrite Hrun. intros [= _ <-]. split; [lia | congruence].
Qed.

Lemma TxData_allocated l1Head s r s' :
  TxData cfgProvider outFactory l1Head s = Returned r s' ->
  exists r1 s1,
    getReadyChannel outFactory l1Head s = Returned r1 s1
    /\ (allocated s1 <= allocated s')%nat
    /\ (snd r1 <> None -> s' = s1).
Proof.
  intros Hrun. pose proof Hrun as H. unfold TxData, bind at 1 in H.
  destruct (getReadyChannel outFactory l1Head s) as [r1 s1 |] eqn:Hready; [| discriminate].
  exists r1, s1. split; [reflexivity |].
  destruct r1 as [[ch |] [err |]]; simpl.
  - injection H as _ <-. auto.
  - clear H. rewrite (TxData_after_ready _ _ _ _ Hready) in Hrun.
    split; [| congruence].
    assert (Hnext : forall s1', allocated s1' = allocated s1 ->
              nextTxData (Some ch) s1' = Returned r s' ->
              (allocated s1 <= allocated s')%nat).
    { intros s1' Ha Hn.
      destruct (nextTxData_returns (Some ch) s1') as (r' & s2 & Hn' & _ & _ & _ & _ & Ha2 & _).
      rewrite Hn' in Hn. injection Hn as _ <-. lia. }
    destruct (negb (NoneSubmitted (heap s1 ch))); [eapply Hnext; eauto |].
    cbv zeta in Hrun. destruct (Bool.eqb _ _); [eapply Hnext; [| exact Hrun]; reflexivity |].
    unfold bind at 1 in Hrun.
    destruct (handleChannelInvalidated ch _) as [u s2 |] eqn:Hinv; [| discriminate].
    apply handleChannelInvalidated_returns in Hinv as (_ & _ & _ & _ & _ & Ha2).
    unfold bind at 1, modify in Hrun.
    apply sendNext_after_ready in Hrun as [Ha3 _]. simpl in *. lia.
  - injection H as _ <-. auto.
  - discriminate.
Qed.

Lemma pruneSafeBlocks_returns newSafeHead s u s' :
  pruneSafeBlocks newSafeHead s = Returned u s' ->
  allocated s' = allocated s /\ defaultCfg s' = defaultCfg s
  /\ (channelless s -> channelless s').
Proof.
  unfold pruneSafeBlocks.
  assert (Hclear : forall l1Origin,
    @Clear channel l1Origin s = Returned u s' ->
    allocated s' = allocated s /\ defaultCfg s' = defaultCfg s
    /\ (channelless s -> channelless s')).
  { intros l1Origin [= _ <-]. repeat split. }
  destruct (queue.Peek (blocks s)) as [oldestBlock |]; [| intros [= _ <-]; auto].
  destruct (_ =? _); [intros [= _ <-]; auto |].
  destruct (_ <? _); [apply Hclear |].
  destruct (_ <? _).
  { destruct (index _ _); [apply Hclear | discriminate]. }
  destruct (index _ _) as [b |]; [| discriminate].
  destruct (negb _); [apply Hclear |].
  destruct (_ <? 0); [discriminate |].
  intros [= _ <-]. auto.
Qed.

Lemma exec_allocated c s u s' :
  exec cfgProvider outFactory c s = Returned u s' ->
  (allocated s <= allocated s')%nat
  /\ (channelless s -> allocated s' = allocated s ->
      channelless s' /\ defaultCfg s' = defaultCfg s).
Proof.
  destruct c as [block | l1Head | id | id inclusionBlock | safe | safe]; simpl.
  - (* AddL2Block *)
    unfold bind, ret, AddL2Block.
    destruct (_ && _); intros [= _ <-]; simpl; auto.
  - (* TxData *)
    unfold bind at 1.
    destruct (TxData cfgProvider outFactory l1Head s) as [r s1 |] eqn:Hrun; [| discriminate].
    intros [= _ <-].
    apply TxData_allocated in Hrun as (r1 & s2 & Hready & Hle & Herr).
    apply getReadyChannel_returns in Hready as (G & _ & Hr1).
    pose proof (grows_allocated _ _ G) as Hle1.
    split; [lia |].
    intros (Hcur & Hq & Htx) Hsame.
    assert (Ha : allocated s2 = allocated s) by lia.
    destruct (grows_same _ _ G Ha) as [Hq2 Hcur2].
    destruct r1 as [[ch |] [err |]]; try contradiction.
    + exfalso. destruct Hr1 as [_ Hin].
      assert (Hciq : current_in_queue s) by (intros p; rewrite Hcur; discriminate).
      specialize (Hin Hciq). rewrite Hq2, Hq in Hin. inversion Hin.
    + rewrite (Herr ltac:(discriminate)).
      split; [| exact (grows_defaultCfg _ _ G)].
      split; [congruence | split; [congruence |]].
      rewrite (grows_txChannels _ _ G). exact Htx.
  - (* TxFailed *)
    unfold TxFailed, bind, get, modify, ret.
    destruct (txChannels s !! id) as [p |] eqn:Hp; intros [= _ <-]; simpl; [| auto].
    split; [apply le_n |]. intros (_ & _ & Htx). rewrite Htx, lookup_empty in Hp. discriminate.
  - (* TxConfirmed *)
    unfold TxConfirmed, bind at 1, get.
    destruct (txChannels s !! id) as [p |] eqn:Hp; [| intros [= _ <-]; auto].
    intros Hrun. split.
    + unfold bind, modify, get in Hrun. simpl in Hrun.
      destruct (ch_TxConfirmed id inclusionBlock (heap s p)) as [[|] c'].
      * apply handleChannelInvalidated_returns in Hrun as (_ & _ & _ & _ & _ & Ha).
        simpl in Ha. lia.
      * injection Hrun as _ <-. simpl. lia.
    + intros (_ & _ & Htx). rewrite Htx, lookup_empty in Hp. discriminate.
  - (* pruneSafeBlocks *)
    intros Hrun. apply pruneSafeBlocks_returns in Hrun as (Ha & Hd & Hless).
    split; [lia | auto].
  - (* pruneChannels *)
    unfold pruneChannels, modify. intros [= _ <-]. simpl. split; [lia |].
    intros (Hcur & Hq & Htx) _. split; [| reflexivity].
    unfold channelless. simpl. rewrite Hq, drop_nil. auto.
Qed.

Lemma run_allocated cs s s' :
  run cfgProvider outFactory cs s = Returned tt s' ->
  (allocated s <= allocated s')%nat
  /\ (channelless s -> allocated s' = allocated s ->
      channelless s' /\ defaultCfg s' = defaultCfg s).
Proof.
  revert s. induction cs as [| c cs IH]; simpl; intros s.
  - intros [= <-]. auto.
  - unfold bind.
    destruct (exec cfgProvider outFactory c s) as [u s1 |] eqn:Hexec; [| discriminate].
    intros Hrun. apply exec_allocated in Hexec as [Hle1 Hless1].
    apply IH in Hrun as [Hle2 Hless2].
    split; [lia |]. intros Hless Hsame.
    destruct Hless1 as [Hl1 Hd1]; [exact Hless | lia |].
    destruct Hless2 as [Hl2 Hd2]; [exact Hl1 | lia |].
    split; [exact Hl2 | congruence].
Qed.

(** C10. [Clear] empties the block queue, sets the cursor to 0, clears
    [tip], [currentChannel], [channelQueue] and [txChannels], stores the given
    L1 origin and keeps [defaultCfg].  After any calls of the public
    operations that created no channel, [defaultCfg] is still the one from
    before [Clear], and [ensureChannelWithSpace] then hands this config to the
    factory and to [newChannel]: the channel it creates becomes the current
    one and the only one of the queue. *)
Theorem Clear_keeps_defaultCfg (l1Origin : BlockID) s :
  exists s',
    Clear l1Origin s = Returned tt s'
    /\ blocks s' = [] /\ blockCursor s' = 0 /\ tip s' = zeroHash
    /\ currentChannel s' = None /\ channelQueue s' = [] /\ txChannels s' = ∅
    /\ l1OriginLastSubmittedChannel s' = l1Origin
    /\ defaultCfg s' = defaultCfg s
    /\ forall cs s'' l1Head,
         run cfgProvider outFactory cs s' = Returned tt s'' ->
         allocated s'' = allocated s' ->
         defaultCfg s'' = defaultCfg s
         /\ match outFactory (defaultCfg s) (allocated s'') with
            | inl err =>
                ensureChannelWithSpace outFactory l1Head s''
                = Returned (Some (ErrCreatingChannelOut err)) s''
            | inr channelOut =>
                exists s3,
                  ensureChannelWithSpace outFactory l1Head s'' = Returned None s3
                  /\ currentChannel s3 = Some (allocated s'')
                  /\ channelQueue s3 = [allocated s'']
                  /\ heap s3 (allocated s'')
                     = newChannel (defaultCfg s)
                         (id_Number (l1OriginLastSubmittedChannel s'')) channelOut
            end.
Proof.
  eexists. split; [reflexivity |]. simpl.
  do 8 (split; [reflexivity |]).
  intros cs s'' l1Head Hrun Hsame.
  apply run_allocated in Hrun as [_ Hless].
  destruct Hless as [(Hcur & Hq & _) Hd]; [repeat split | exact Hsame |].
  simpl in Hd. split; [exact Hd |].
  unfold ensureChannelWithSpace. rewrite Hcur, Hd.
  destruct (outFactory (defaultCfg s) (allocated s'')) as [err | co]; [reflexivity |].
  simpl. eexists. split; [reflexivity |]. simpl.
  rewrite Hq, Nat.eqb_refl. auto.
Qed.

End Properties.

(** * Further properties of the manager *)

Section Operations.

Context {channel ChannelOut txData : Type}.
Context `{API : !ChannelAPI channel ChannelOut txData}.
Variable cfgProvider : nat -> ChannelConfig.
Variable outFactory : ChannelConfig -> nat -> error + ChannelOut.

Implicit Types (s : channelManager channel) (q : list ptr) (h : ptr -> channel).

(** *** Steps that keep the invariants *)

Lemma evolves_refl s : evolves s s.
Proof. constructor; auto; lia. Qed.

Lemma evolves_trans s1 s2 s3 : evolves s1 s2 -> evolves s2 s3 -> evolves s1 s3.
Proof. intros [] []. constructor; auto; try congruence; lia. Qed.

(** A step that changes channel objects, the index, the default config or
    the provider's counter only. *)
Lemma evolves_same_fields s s' :
  blocks s' = blocks s -> blockCursor s' = blockCursor s -> tip s' = tip s ->
  id_Number (l1OriginLastSubmittedChannel s)
  <= id_Number (l1OriginLastSubmittedChannel s') ->
  channelQueue s' = channelQueue s -> allocated s' = allocated s ->
  evolves s s'.
Proof.
  intros Hb Hc Ht Hl Hq Ha. constructor; auto; try lia.
  - unfold bounded. rewrite Hb, Hc. auto.
  - unfold distinct_queue. rewrite Hq, Ha. auto.
Qed.

Lemma fromCursor_length s :
  bounded s ->
  Z.of_nat (length (fromCursor s)) = queue.Len (blocks s) - blockCursor s.
Proof.
  intros [[Hlo Hhi] _]. unfold fromCursor, queue.Len in *.
  destruct (Z.ltb_spec (blockCursor s) 0); [lia |].
  rewrite length_drop. lia.
Qed.

(** The counter of the loop of [processBlocks] grows by at most the number
    of blocks it is given. *)
Lemma addBlocks_count pending i c added e c' added' :
  addBlocks pending i c added = (e, c', added') ->
  0 <= added -> added + Z.of_nat (length pending) < 2 ^ 63 ->
  added <= added' <= added + Z.of_nat (length pending).
Proof.
  revert i c added. induction pending as [| b rest IH]; simpl; intros i c added.
  - intros [= <- <- <-] ? ?. lia.
  - destruct (AddBlock b c) as [[| | err] c1].
    + destruct (IsFull c1).
      * intros [= <- <- <-] ? ?. rewrite int64_small by lia. lia.
      * intros Hrec ? ?. rewrite (int64_small (added + 1)) in Hrec by lia.
        apply IH in Hrec; lia.
    + intros [= <- <- <-] ? ?. lia.
    + intros [= <- <- <-] ? ?. lia.
Qed.

(** When the loop ends without an error and before the last block, the
    channel is full or refused the next block as full. *)
Lemma addBlocks_stops pending i c added c' added' :
  addBlocks pending i c added = (None, c', added') ->
  0 <= added -> added + Z.of_nat (length pending) < 2 ^ 63 ->
  added' < added + Z.of_nat (length pending) ->
  IsFull c' = true
  \/ exists b c0,
       pending !! Z.to_nat (added' - added) = Some b
       /\ AddBlock b c0 = (AddFull, c').
Proof.
  revert i c added. induction pending as [| b rest IH]; simpl; intros i c added.
  - intros [= <- <-] ? ? ?. lia.
  - destruct (AddBlock b c) as [[| | err] c1] eqn:Hadd.
    + destruct (IsFull c1) eqn:Hfull.
      * intros [= <- <-] ? ? ?. auto.
      * intros Hrec ? ? ?. rewrite (int64_small (added + 1)) in Hrec by lia.
        pose proof (addBlocks_count _ _ _ _ _ _ _ Hrec ltac:(lia) ltac:(lia)) as Hcount.
        apply IH in Hrec as [Hf | (b' & c0 & Hb' & Hc0)]; [auto | | lia | lia | lia].
        right. exists b', c0. split; [| exact Hc0].
        replace (Z.to_nat (added' - added)) with (S (Z.to_nat (added' - (added + 1)))) by lia.
        exact Hb'.
    + intros [= <- <-] ? ? ?. right. exists b, c.
      replace (added - added) with 0 by lia. auto.
    + discriminate.
Qed.

Lemma processBlocks_evolves s e s' :
  processBlocks s = Returned e s' ->
  evolves s s'
  /\ channelQueue s' = channelQueue s
  /\ allocated s' = allocated s
  /\ (bounded s -> blockCursor s <= blockCursor s')
  /\ (e <> None -> blockCursor s' = blockCursor s).
Proof.
  unfold processBlocks. destruct (currentChannel s) as [p |]; [| discriminate].
  destruct (addBlocks _ _ _ _) as [[[err |] c'] added] eqn:Hloop; intros [= <- <-].
  - split; [apply evolves_same_fields; simpl; auto; lia |]. simpl.
    repeat split; auto; lia.
  - simpl. split; [| split; [reflexivity | split; [reflexivity | split; [| congruence]]]].
    + constructor; simpl; auto; try lia.
      intros Hb. pose proof (fromCursor_length s Hb) as Hlen.
      destruct Hb as [[Hlo Hhi] Hmax].
      apply addBlocks_count in Hloop; [| lia | lia].
      unfold bounded. simpl. rewrite int64_small by lia. lia.
    + intros Hb. pose proof (fromCursor_length s Hb) as Hlen.
      destruct Hb as [[Hlo Hhi] Hmax].
      apply addBlocks_count in Hloop; [| lia | lia].
      rewrite int64_small by lia. lia.
Qed.

Lemma rewindToBlock_evolves block s u s' :
  rewindToBlock block s = Returned u s' ->
  evolves s s'
  /\ channelQueue s' = channelQueue s /\ currentChannel s' = currentChannel s
  /\ txChannels s' = txChannels s /\ allocated s' = allocated s
  /\ l1OriginLastSubmittedChannel s' = l1OriginLastSubmittedChannel s.
Proof.
  unfold rewindToBlock.
  destruct (index (blocks s) 0) as [b0 |]; [| discriminate].
  destruct (index (blocks s) _) as [b |] eqn:Hidx; [| discriminate].
  destruct (_ && _); [| discriminate].
  intros [= _ <-]. simpl. split; [| auto 6].
  constructor; simpl; auto; try lia.
  intros [_ Hmax]. apply index_Some in Hidx as [Hrange _].
  unfold bounded, queue.Len in *. simpl. rewrite int64_small by lia. lia.
Qed.

Lemma trimAt_prefix c q : trimAt c q `prefix_of` q.
Proof.
  induction q as [| x q IH]; simpl; [reflexivity |].
  destruct (Nat.eqb x c); [apply prefix_nil | apply prefix_cons, IH].
Qed.

Lemma trimAt_sublist_of c q : trimAt c q `sublist_of` q.
Proof.
  induction q as [| x q IH]; simpl; [reflexivity |].
  destruct (Nat.eqb x c); [apply sublist_nil_l | apply sublist_skip, IH].
Qed.

Lemma trimAt_absent c q : c ∉ q -> trimAt c q = q.
Proof.
  induction q as [| x q IH]; simpl; [reflexivity |].
  intros [Hne Hq]%not_elem_of_cons.
  destruct (Nat.eqb_spec x c); [congruence |]. rewrite IH by exact Hq. reflexivity.
Qed.

Lemma distinct_queue_sublist s s' :
  channelQueue s' `sublist_of` channelQueue s ->
  (allocated s <= allocated s')%nat ->
  distinct_queue s -> distinct_queue s'.
Proof.
  intros Hsub Ha [Hnd Hlt]. split.
  - eapply sublist_NoDup; eauto.
  - intros p Hp. eapply Nat.lt_le_trans; [| exact Ha].
    apply Hlt. eapply elem_of_sublist; eauto.
Qed.

Lemma handleChannelInvalidated_evolves c s u s' :
  handleChannelInvalidated c s = Returned u s' ->
  evolves s s'
  /\ l1OriginLastSubmittedChannel s' = l1OriginLastSubmittedChannel s
  /\ channelQueue s' = trimAt c (channelQueue s).
Proof.
  unfold handleChannelInvalidated, bind, get, modify, ret.
  assert (Htrim : forall s1, evolves s s1 ->
    evolves s (set_currentChannel None
                 (set_channelQueue (trimAt c (channelQueue s1)) s1))).
  { intros s1 E. apply (evolves_trans _ _ _ E).
    constructor; simpl; auto; try lia.
    apply distinct_queue_sublist; simpl; [| lia].
    apply trimAt_sublist_of. }
  destruct (builder_blocks (heap s c)) as [| b bs].
  - intros [= _ <-]. split; [apply Htrim, evolves_refl | auto].
  - destruct (rewindToBlock (ToBlockID b) s) as [u1 s1 |] eqn:Hrew; [| discriminate].
    apply rewindToBlock_evolves in Hrew as (E & Hq & _ & _ & _ & Hl).
    intros [= _ <-]. split; [apply Htrim, E |]. simpl. rewrite Hq. auto.
Qed.

Lemma nextTxData_evolves ch s r s' :
  nextTxData ch s = Returned r s' ->
  evolves s s'
  /\ channelQueue s' = channelQueue s
  /\ blockCursor s' = blockCursor s.
Proof.
  unfold nextTxData.
  destruct ch as [p |]; [| intros [= _ <-]; split; [apply evolves_refl | auto]].
  destruct (HasTxData (heap s p)); simpl;
    [| intros [= _ <-]; split; [apply evolves_refl | auto]].
  destruct (NextTxData (heap s p)) as [tx c']. simpl.
  destruct (id_Number (l1OriginLastSubmittedChannel s) <? id_Number (LatestL1Origin c'))
    eqn:Hlt; intros [= _ <-]; (split; [| auto]);
    apply evolves_same_fields; simpl; auto; try lia.
Qed.

Lemma ensureChannelWithSpace_evolves l1Head s e s' :
  ensureChannelWithSpace outFactory l1Head s = Returned e s' ->
  evolves s s'
  /\ l1OriginLastSubmittedChannel s' = l1OriginLastSubmittedChannel s
  /\ blockCursor s' = blockCursor s
  /\ (s' = s \/ channelQueue s' = channelQueue s ++ [allocated s]).
Proof.
  unfold ensureChannelWithSpace.
  assert (Hsame : Returned e s = Returned e s' ->
    evolves s s'
    /\ l1OriginLastSubmittedChannel s' = l1OriginLastSubmittedChannel s
    /\ blockCursor s' = blockCursor s
    /\ (s' = s \/ channelQueue s' = channelQueue s ++ [allocated s])).
  { intros [= <-]. split; [apply evolves_refl | auto]. }
  assert (Hcreate :
    match outFactory (defaultCfg s) (allocated s) with
    | inl err => Returned (Some (ErrCreatingChannelOut err)) s
    | inr channelOut =>
        let pc := newChannel (defaultCfg s)
                    (id_Number (l1OriginLastSubmittedChannel s)) channelOut in
        let (p, s1) := alloc pc s in
        Returned None
          (set_channelQueue (channelQueue s1 ++ [p]) (set_currentChannel (Some p) s1))
    end = Returned e s' ->
    evolves s s'
    /\ l1OriginLastSubmittedChannel s' = l1OriginLastSubmittedChannel s
    /\ blockCursor s' = blockCursor s
    /\ (s' = s \/ channelQueue s' = channelQueue s ++ [allocated s])).
  { destruct (outFactory (defaultCfg s) (allocated s)) as [err | co]; simpl.
    - intros [= <- <-]. split; [apply evolves_refl | auto].
    - intros [= <- <-]. simpl. split; [| auto].
      constructor; simpl; auto; try lia.
      intros [Hnd Hlt]. split; simpl.
      + apply NoDup_app. split; [exact Hnd |]. split; [| apply NoDup_singleton].
        intros p Hp ->%list_elem_of_singleton. specialize (Hlt _ Hp). lia.
      + intros p [Hp | ->%list_elem_of_singleton]%elem_of_app; [| lia].
        specialize (Hlt _ Hp). lia. }
  destruct (currentChannel s) as [p |]; [| exact Hcreate].
  destruct (IsFull (heap s p)); simpl; [exact Hcreate |].
  intros [= <- <-]. split; [apply evolves_refl | auto].
Qed.

Lemma store_evolves s p c : evolves s (store p c s).
Proof. apply evolves_same_fields; simpl; auto; lia. Qed.

Lemma registerL1Block_evolves l1Head s u s' :
  registerL1Block l1Head s = Returned u s' ->
  evolves s s' /\ channelQueue s' = channelQueue s /\ blockCursor s' = blockCursor s.
Proof.
  unfold registerL1Block. destruct (currentChannel s) as [p |]; [| discriminate].
  intros [= _ <-]. split; [apply store_evolves | auto].
Qed.

Lemma outputFrames_evolves s e s' :
  outputFrames s = Returned e s' ->
  evolves s s' /\ channelQueue s' = channelQueue s /\ blockCursor s' = blockCursor s.
Proof.
  unfold outputFrames. destruct (currentChannel s) as [p |]; [| discriminate].
  destruct (OutputFrames (heap s p)) as [[err |] c']; intros [= _ <-];
    (split; [apply store_evolves | auto]).
Qed.

(** What [getReadyChannel] does to the state when it returns: at most one
    channel is created, and it goes to the tail of the queue. *)
Lemma getReadyChannel_evolves l1Head s r s' :
  getReadyChannel outFactory l1Head s = Returned r s' ->
  evolves s s'
  /\ (channelQueue s' = channelQueue s
      \/ channelQueue s' = channelQueue s ++ [allocated s])
  /\ (bounded s -> blockCursor s <= blockCursor s').
Proof.
  unfold getReadyChannel, bind, get, ret, panic.
  assert (Hrefl : evolves s s
    /\ (channelQueue s = channelQueue s
        \/ channelQueue s = channelQueue s ++ [allocated s])
    /\ (bounded s -> blockCursor s <= blockCursor s)).
  { split; [apply evolves_refl |]. split; [auto | lia]. }
  destruct (firstWithTxData (heap s) (channelQueue s)) as [ch |].
  { intros [= _ <-]. exact Hrefl. }
  destruct (pendingBlocks s =? 0).
  { intros [= _ <-]. exact Hrefl. }
  destruct (ensureChannelWithSpace outFactory l1Head s) as [e1 s1 |] eqn:H1; [| discriminate].
  apply ensureChannelWithSpace_evolves in H1 as (E1 & _ & C1 & Q1).
  assert (Q1' : channelQueue s1 = channelQueue s
                \/ channelQueue s1 = channelQueue s ++ [allocated s]).
  { destruct Q1 as [-> | Q1]; auto. }
  destruct e1 as [err |].
  { intros [= _ <-]. split; [exact E1 | split; [exact Q1' | lia]]. }
  destruct (processBlocks s1) as [e2 s2 |] eqn:H2; [| discriminate].
  apply processBlocks_evolves in H2 as (E2 & Q2 & _ & B2 & _).
  assert (E12 : evolves s s2) by (eapply evolves_trans; eauto).
  assert (B12 : bounded s -> blockCursor s <= blockCursor s2).
  { intros Hb. specialize (B2 (evolves_bounded _ _ E1 Hb)). lia. }
  rewrite <- Q2 in Q1'.
  destruct e2 as [err |].
  { intros [= _ <-]. auto. }
  destruct (registerL1Block l1Head s2) as [u3 s3 |] eqn:H3; [| discriminate].
  apply registerL1Block_evolves in H3 as (E3 & Q3 & C3).
  destruct (outputFrames s3) as [e4 s4 |] eqn:H4; [| discriminate].
  apply outputFrames_evolves in H4 as (E4 & Q4 & C4).
  assert (Hend : evolves s s4
    /\ (channelQueue s4 = channelQueue s
        \/ channelQueue s4 = channelQueue s ++ [allocated s])
    /\ (bounded s -> blockCursor s <= blockCursor s4)).
  { split; [| split; [rewrite Q4, Q3; exact Q1' | rewrite C4, C3; exact B12]].
    apply (evolves_trans _ _ _ E12). apply (evolves_trans _ _ _ E3). exact E4. }
  destruct e4 as [err |].
  { intros [= _ <-]. exact Hend. }
  destruct (currentChannel s4) as [p4 |]; [| discriminate].
  destruct (HasTxData (heap s4 p4)); intros [= _ <-]; exact Hend.
Qed.

(** [TxData] is made of steps that keep the blocks and the invariants. *)
Lemma TxData_evolves l1Head s r s' :
  TxData cfgProvider outFactory l1Head s = Returned r s' ->
  evolves s s'.
Proof.
  intros Hrun. pose proof Hrun as H. unfold TxData, bind at 1 in H.
  destruct (getReadyChannel outFactory l1Head s) as [r1 s1 |] eqn:Hready; [| discriminate].
  pose proof (getReadyChannel_evolves _ _ _ _ Hready) as (E1 & _).
  destruct r1 as [[ch |] [err |]]; simpl in H.
  - injection H as _ <-. exact E1.
  - clear H. rewrite (TxData_after_ready cfgProvider outFactory _ _ _ _ Hready) in Hrun.
    destruct (negb (NoneSubmitted (heap s1 ch))).
    { apply nextTxData_evolves in Hrun as [E2 _]. eapply evolves_trans; eauto. }
    cbv zeta in Hrun.
    assert (Eq : evolves s1 (snd (queryCfg cfgProvider s1))).
    { apply evolves_same_fields; simpl; auto; lia. }
    destruct (Bool.eqb _ _).
    { apply nextTxData_evolves in Hrun as [E2 _].
      eapply evolves_trans; [exact E1 | eapply evolves_trans; eauto]. }
    unfold bind at 1 in Hrun.
    destruct (handleChannelInvalidated ch _) as [u s2 |] eqn:Hinv; [| discriminate].
    apply handleChannelInvalidated_evolves in Hinv as (E2 & _).
    unfold bind at 1, modify in Hrun.
    assert (E3 : evolves s2 (set_defaultCfg (cfgProvider (cfgQueries s1)) s2)).
    { apply evolves_same_fields; simpl; auto; lia. }
    unfold bind in Hrun.
    destruct (getReadyChannel outFactory l1Head _) as [r4 s4 |] eqn:Hagain; [| discriminate].
    apply getReadyChannel_evolves in Hagain as (E4 & _).
    assert (E : evolves s s4).
    { apply (evolves_trans _ _ _ E1). apply (evolves_trans _ _ _ Eq).
      apply (evolves_trans _ _ _ E2). apply (evolves_trans _ _ _ E3). exact E4. }
    destruct r4 as [c4 [err |]]; simpl in Hrun.
    + injection Hrun as _ <-. exact E.
    + apply nextTxData_evolves in Hrun as [E5 _]. eapply evolves_trans; eauto.
  - injection H as _ <-. exact E1.
  - discriminate.
Qed.

(** *** The block queue and the cursor *)

Lemma pruneSafeBlocks_cases newSafeHead s u s' :
  pruneSafeBlocks newSafeHead s = Returned u s' ->
  s' = s
  \/ Clear (ref_L1Origin newSafeHead) s = Returned tt s'
  \/ exists n cursor',
       s' = set_blockCursor cursor' (set_blocks (drop n (blocks s)) s)
       /\ (bounded s -> bounded s').
Proof.
  unfold pruneSafeBlocks.
  assert (Hclear : Clear (ref_L1Origin newSafeHead) s = Returned u s' ->
    s' = s
    \/ Clear (ref_L1Origin newSafeHead) s = Returned tt s'
    \/ exists n cursor',
         s' = set_blockCursor cursor' (set_blocks (drop n (blocks s)) s)
         /\ (bounded s -> bounded s')).
  { destruct u. auto. }
  destruct (queue.Peek (blocks s)) as [oldestBlock |]; [| intros [= _ <-]; auto].
  destruct (_ =? _); [intros [= _ <-]; auto |].
  destruct (_ <? _); [exact Hclear |].
  set (num := uint64 (uint64 (ref_Number newSafeHead + 1) - NumberU64 oldestBlock)).
  destruct (Z.ltb_spec (uint64 (queue.Len (blocks s))) num) as [Hgt | Hle].
  { destruct (index _ _); [exact Hclear | discriminate]. }
  destruct (index _ _) as [b |]; [| discriminate].
  destruct (negb _); [exact Hclear |].
  destruct (Z.ltb_spec (int64 (blockCursor s - int64 num)) 0) as [| Hpos]; [discriminate |].
  intros [= _ <-]. right. right.
  unfold queue.DequeueN.
  destruct ((int64 num <? 0) || (Z.of_nat (length (blocks s)) <? int64 num)) eqn:Hdq.
  - exists 0%nat, (int64 (blockCursor s - int64 num)). split; [reflexivity |].
    intros [[Hlo Hhi] Hmax]. exfalso.
    unfold queue.Len in *. pose proof (uint64_range (uint64 (ref_Number newSafeHead + 1)
                                                     - NumberU64 oldestBlock)) as Hr.
    fold num in Hr. rewrite uint64_small in Hle by lia.
    rewrite int64_small in Hdq by lia.
    apply orb_true_iff in Hdq as [Hd | Hd]; apply Z.ltb_lt in Hd; lia.
  - exists (Z.to_nat (int64 num)), (int64 (blockCursor s - int64 num)).
    split; [reflexivity |].
    intros [[Hlo Hhi] Hmax].
    unfold queue.Len in *. pose proof (uint64_range (uint64 (ref_Number newSafeHead + 1)
                                                     - NumberU64 oldestBlock)) as Hr.
    fold num in Hr. rewrite uint64_small in Hle by lia.
    rewrite (int64_small num) in * by lia.
    rewrite int64_small in * by lia.
    unfold bounded, queue.Len. simpl. rewrite length_drop. lia.
Qed.

Lemma Clear_result l1Origin s s' :
  Clear l1Origin s = Returned tt s' ->
  blocks s' = [] /\ blockCursor s' = 0 /\ tip s' = zeroHash
  /\ channelQueue s' = [] /\ currentChannel s' = None /\ txChannels s' = ∅
  /\ l1OriginLastSubmittedChannel s' = l1Origin
  /\ allocated s' = allocated s /\ defaultCfg s' = defaultCfg s
  /\ cfgQueries s' = cfgQueries s.
Proof. intros [= <-]. repeat split. Qed.

Lemma bounded_empty s : blocks s = [] -> blockCursor s = 0 -> bounded s.
Proof. intros Hb Hc. unfold bounded, queue.Len. rewrite Hb, Hc. simpl. lia. Qed.

Lemma initial_bounded s : initial cfgProvider s -> bounded s.
Proof.
  intros [[h ->] | (s0 & l1Origin & Hclear)]; [apply bounded_empty; reflexivity |].
  apply Clear_result in Hclear as (Hb & Hc & _). apply bounded_empty; assumption.
Qed.

Lemma TxConfirmed_evolves id inclusionBlock s u s' :
  TxConfirmed id inclusionBlock s = Returned u s' -> evolves s s'.
Proof.
  unfold TxConfirmed, bind at 1, get.
  destruct (txChannels s !! id) as [p |]; [| intros [= _ <-]; apply evolves_refl].
  unfold bind, modify, get. simpl.
  destruct (ch_TxConfirmed id inclusionBlock (heap s p)) as [[|] c'].
  - intros Hinv. apply handleChannelInvalidated_evolves in Hinv as [E _].
    eapply evolves_trans; [| exact E].
    apply evolves_same_fields; simpl; auto; lia.
  - intros [= _ <-]. apply evolves_same_fields; simpl; auto; lia.
Qed.

Lemma TxFailed_evolves id s u s' :
  TxFailed id s = Returned u s' -> evolves s s'.
Proof.
  unfold TxFailed, bind, get, modify, ret.
  destruct (txChannels s !! id) as [p |]; intros [= _ <-];
    [apply evolves_same_fields; simpl; auto; lia | apply evolves_refl].
Qed.

Lemma pruneChannels_evolves newSafeHead s u s' :
  pruneChannels newSafeHead s = Returned u s' -> evolves s s'.
Proof.
  unfold pruneChannels, modify. intros [= _ <-].
  constructor; simpl; auto; try lia.
  apply distinct_queue_sublist; simpl; [apply sublist_drop | lia].
Qed.

(** Every call keeps the cursor within the block queue, which grows by at
    most one block. *)
Lemma exec_bounded c s u s' :
  exec cfgProvider outFactory c s = Returned u s' ->
  bounded s -> queue.Len (blocks s) + 1 < 2 ^ 63 ->
  bounded s' /\ queue.Len (blocks s') <= queue.Len (blocks s) + 1.
Proof.
  assert (Hev : evolves s s' -> bounded s ->
    bounded s' /\ queue.Len (blocks s') <= queue.Len (blocks s) + 1).
  { intros E Hb. split; [exact (evolves_bounded _ _ E Hb) |].
    rewrite (evolves_blocks _ _ E). lia. }
  destruct c as [block | l1Head | id | id inclusionBlock | safe | safe]; simpl.
  - unfold bind, ret, AddL2Block.
    destruct (_ && _); intros [= _ <-] Hb Hlen; [split; [exact Hb | lia] |].
    destruct Hb as [[Hlo Hhi] Hmax].
    unfold bounded, queue.Len, queue.Enqueue in *. simpl. rewrite length_app. simpl. lia.
  - unfold bind at 1.
    destruct (TxData cfgProvider outFactory l1Head s) as [r s1 |] eqn:Hrun; [| discriminate].
    intros [= _ <-] Hb _. apply Hev; [| exact Hb]. eapply TxData_evolves; eauto.
  - intros Hrun Hb _. apply Hev; [| exact Hb]. eapply TxFailed_evolves; eauto.
  - intros Hrun Hb _. apply Hev; [| exact Hb]. eapply TxConfirmed_evolves; eauto.
  - intros Hrun Hb _.
    apply pruneSafeBlocks_cases in Hrun as [-> | [Hclear | (n & c' & -> & Hb')]].
    + split; [exact Hb | lia].
    + apply Clear_result in Hclear as (Hbl & Hc & _).
      split; [apply bounded_empty; assumption |]. rewrite Hbl. unfold queue.Len. simpl. lia.
    + split; [exact (Hb' Hb) |]. unfold queue.Len. simpl. rewrite length_drop. lia.
  - intros Hrun Hb _. apply Hev; [| exact Hb]. eapply pruneChannels_evolves; eauto.
Qed.

Lemma run_bounded cs s s' :
  run cfgProvider outFactory cs s = Returned tt s' ->
  bounded s -> queue.Len (blocks s) + Z.of_nat (length cs) < 2 ^ 63 ->
  bounded s'.
Proof.
  revert s. induction cs as [| c cs IH]; simpl; intros s.
  - intros [= <-]. auto.
  - unfold bind.
    destruct (exec cfgProvider outFactory c s) as [u s1 |] eqn:Hexec; [| discriminate].
    intros Hrun Hb Hlen.
    apply exec_bounded in Hexec as [Hb1 Hl1]; [| exact Hb | lia].
    apply (IH s1); [exact Hrun | exact Hb1 | lia].
Qed.

(** X1. In every state a fresh or cleared manager reaches by fewer than 2^63
    calls of the public operations, the cursor is within the block queue:
    [0 <= blockCursor <= len(blocks)]; [pendingBlocks] is then the number
    of blocks from the cursor on, which is not negative. *)
Theorem run_keeps_cursor_in_bounds (cs : list call) s0 s :
  initial cfgProvider s0 ->
  Z.of_nat (length cs) < 2 ^ 63 ->
  run cfgProvider outFactory cs s0 = Returned tt s ->
  0 <= blockCursor s <= queue.Len (blocks s)
  /\ pendingBlocks s = Z.of_nat (length (fromCursor s)).
Proof.
  intros Hinit Hlen Hrun.
  assert (Hb : bounded s).
  { apply (run_bounded cs s0); [exact Hrun | apply initial_bounded, Hinit |].
    destruct Hinit as [[h ->] | (s1 & l1Origin & Hclear)].
    - simpl. unfold queue.Len. simpl. lia.
    - apply Clear_result in Hclear as (-> & _). unfold queue.Len. simpl. lia. }
  split; [exact (proj1 Hb) |].
  rewrite (fromCursor_length s Hb). unfold pendingBlocks.
  destruct Hb as [[Hlo Hhi] Hmax]. apply int64_small. lia.
Qed.

(** *** The block queue is a chain *)

Lemma linked_snoc bs b' :
  linked bs ->
  (forall b, last bs = Some b -> blk_Hash b = zeroHash \/ blk_ParentHash b' = blk_Hash b) ->
  linked (bs ++ [b']).
Proof.
  induction bs as [| b bs IH]; simpl; [auto |].
  intros [Hhead Htail] Hlast. destruct bs as [| b2 bs]; simpl in *.
  - split; [apply Hlast; reflexivity | auto].
  - split; [exact Hhead |]. apply IH; [exact Htail |]. exact Hlast.
Qed.

Lemma linked_drop n bs : linked bs -> linked (drop n bs).
Proof.
  revert bs. induction n as [| n IH]; intros bs; [rewrite drop_0; auto |].
  destruct bs as [| b bs]; simpl; [auto |]. intros [_ Htail]. apply IH, Htail.
Qed.

Lemma last_drop_Some {A} n (l : list A) x : last (drop n l) = Some x -> last l = Some x.
Proof.
  revert l. induction n as [| n IH]; intros l; [rewrite drop_0; auto |].
  destruct l as [| y l]; simpl; [discriminate |].
  intros Hx. specialize (IH _ Hx).
  destruct l as [| z l]; [discriminate | exact IH].
Qed.

Lemma chained_same s s' : blocks s' = blocks s -> tip s' = tip s -> chained s -> chained s'.
Proof. unfold chained. intros -> ->. auto. Qed.

Lemma chained_empty s : blocks s = [] -> chained s.
Proof. unfold chained. intros ->. simpl. split; [exact I | discriminate]. Qed.

Lemma exec_chained c s u s' :
  exec cfgProvider outFactory c s = Returned u s' -> chained s -> chained s'.
Proof.
  assert (Hev : evolves s s' -> chained s -> chained s').
  { intros E. apply chained_same; [apply (evolves_blocks _ _ E) | apply (evolves_tip _ _ E)]. }
  destruct c as [block | l1Head | id | id inclusionBlock | safe | safe]; simpl.
  - unfold bind, ret, AddL2Block.
    destruct (N.eqb_spec (tip s) zeroHash) as [Hz | Hz];
      destruct (N.eqb_spec (tip s) (blk_ParentHash block)) as [Hp | Hp]; simpl;
      intros [= _ <-]; auto; intros [Hl Ht]; unfold chained, queue.Enqueue; simpl;
      (split; [apply linked_snoc; [exact Hl |] | rewrite last_snoc; congruence]);
      intros b Hb; specialize (Ht b Hb); [left | left | right]; congruence.
  - unfold bind at 1.
    destruct (TxData cfgProvider outFactory l1Head s) as [r s1 |] eqn:Hrun; [| discriminate].
    intros [= _ <-]. apply Hev. eapply TxData_evolves; eauto.
  - intros Hrun. apply Hev. eapply TxFailed_evolves; eauto.
  - intros Hrun. apply Hev. eapply TxConfirmed_evolves; eauto.
  - intros Hrun [Hl Ht].
    apply pruneSafeBlocks_cases in Hrun as [-> | [Hclear | (n & c' & -> & _)]].
    + split; assumption.
    + apply Clear_result in Hclear as (Hbl & _). apply chained_empty, Hbl.
    + split; simpl; [apply linked_drop, Hl |].
      intros b Hb. apply Ht. eapply last_drop_Some; eauto.
  - intros Hrun. apply Hev. eapply pruneChannels_evolves; eauto.
Qed.

(** X2. In every state a fresh or cleared manager reaches by the public
    operations, the block queue is a chain: each block names the block before
    it as its parent (unless that block has the zero hash, for which
    [AddL2Block] skips the check), and [tip] is the hash of the last block of
    a non-empty queue. *)
Theorem run_keeps_blocks_chained (cs : list call) s0 s :
  initial cfgProvider s0 ->
  run cfgProvider outFactory cs s0 = Returned tt s ->
  linked (blocks s) /\ forall b, last (blocks s) = Some b -> tip s = blk_Hash b.
Proof.
  intros Hinit Hrun.
  assert (H0 : chained s0).
  { destruct Hinit as [[h ->] | (s1 & l1Origin & Hclear)]; [apply chained_empty; reflexivity |].
    apply Clear_result in Hclear as (Hb & _). apply chained_empty, Hb. }
  clear Hinit. revert s0 H0 Hrun.
  induction cs as [| c cs IH]; simpl; intros s0 H0.
  - intros [= <-]. exact H0.
  - unfold bind.
    destruct (exec cfgProvider outFactory c s0) as [u s1 |] eqn:Hexec; [| discriminate].
    apply IH. eapply exec_chained; eauto.
Qed.

(** *** The channel queue *)

Lemma exec_distinct c s u s' :
  exec cfgProvider outFactory c s = Returned u s' -> distinct_queue s -> distinct_queue s'.
Proof.
  assert (Hev : evolves s s' -> distinct_queue s -> distinct_queue s').
  { intros E. apply (evolves_distinct _ _ E). }
  destruct c as [block | l1Head | id | id inclusionBlock | safe | safe]; simpl.
  - unfold bind, ret, AddL2Block. destruct (_ && _); intros [= _ <-]; auto.
  - unfold bind at 1.
    destruct (TxData cfgProvider outFactory l1Head s) as [r s1 |] eqn:Hrun; [| discriminate].
    intros [= _ <-]. apply Hev. eapply TxData_evolves; eauto.
  - intros Hrun. apply Hev. eapply TxFailed_evolves; eauto.
  - intros Hrun. apply Hev. eapply TxConfirmed_evolves; eauto.
  - intros Hrun Hd.
    apply pruneSafeBlocks_cases in Hrun as [-> | [Hclear | (n & c' & -> & _)]]; auto.
    apply Clear_result in Hclear as (_ & _ & _ & Hq & _).
    unfold distinct_queue. rewrite Hq. split; [constructor |].
    intros p Hp. inversion Hp.
  - intros Hrun. apply Hev. eapply pruneChannels_evolves; eauto.
Qed.

(** X3. In every state a fresh or cleared manager reaches by the public
    operations, no channel is in the channel queue twice, and every channel
    of the queue is one [ensureChannelWithSpace] created. *)
Theorem run_keeps_queue_distinct (cs : list call) s0 s :
  initial cfgProvider s0 ->
  run cfgProvider outFactory cs s0 = Returned tt s ->
  NoDup (channelQueue s) /\ forall p, p ∈ channelQueue s -> (p < allocated s)%nat.
Proof.
  intros Hinit Hrun.
  assert (H0 : distinct_queue s0).
  { assert (He : channelQueue s0 = [] -> distinct_queue s0).
    { unfold distinct_queue. intros ->. split; [constructor |]. intros p Hp. inversion Hp. }
    destruct Hinit as [[h ->] | (s1 & l1Origin & Hclear)]; [apply He; reflexivity |].
    apply Clear_result in Hclear as (_ & _ & _ & Hq & _). apply He, Hq. }
  clear Hinit. revert s0 H0 Hrun.
  induction cs as [| c cs IH]; simpl; intros s0 H0.
  - intros [= <-]. exact H0.
  - unfold bind.
    destruct (exec cfgProvider outFactory c s0) as [u s1 |] eqn:Hexec; [| discriminate].
    apply IH. eapply exec_distinct; eauto.
Qed.

(** *** The tx index *)

(** X4. When [TxData] returns a transaction and no error, the id of that
    transaction is entered in [txChannels] and nothing else in the index
    changes; when it returns an error, the index is the one of the call. *)
Theorem TxData_registers_returned_id (l1Head : BlockID) s tx e s' :
  TxData cfgProvider outFactory l1Head s = Returned (tx, e) s' ->
  match e with
  | None => exists ch, txChannels s' = <[tx_ID_String tx := ch]> (txChannels s)
  | Some _ => txChannels s' = txChannels s
  end.
Proof.
  intros Hrun. pose proof Hrun as H. unfold TxData, bind at 1 in H.
  destruct (getReadyChannel outFactory l1Head s) as [r1 s1 |] eqn:Hready; [| discriminate].
  destruct (getReadyChannel_returns _ _ _ _ _ Hready) as (G1 & _ & Hr1).
  pose proof (grows_txChannels _ _ G1) as Ht1.
  assert (Hnext : forall ch s2,
    HasTxData (heap s2 ch) = true -> txChannels s2 = txChannels s ->
    nextTxData (Some ch) s2 = Returned (tx, e) s' ->
    match e with
    | None => exists ch, txChannels s' = <[tx_ID_String tx := ch]> (txChannels s)
    | Some _ => txChannels s' = txChannels s
    end).
  { intros ch s2 Hdata Ht Hn.
    destruct (nextTxData_with_data ch s2 Hdata) as (s3 & Hn' & Htx & _).
    rewrite Hn' in Hn. injection Hn as <- <- <-. exists ch. rewrite Htx, Ht. reflexivity. }
  destruct r1 as [[ch |] [err |]]; try contradiction.
  - clear H. destruct Hr1 as [Hdata _].
    rewrite (TxData_after_ready cfgProvider outFactory _ _ _ _ Hready) in Hrun.
    destruct (negb (NoneSubmitted (heap s1 ch))); [eapply Hnext; eauto |].
    cbv zeta in Hrun.
    destruct (Bool.eqb _ _); [eapply Hnext; [| | exact Hrun]; [exact Hdata | exact Ht1] |].
    unfold bind at 1 in Hrun.
    destruct (handleChannelInvalidated ch _) as [u s2 |] eqn:Hinv; [| discriminate].
    apply handleChannelInvalidated_returns in Hinv as (_ & _ & Ht2 & _).
    unfold bind at 1, modify in Hrun. unfold bind in Hrun.
    destruct (getReadyChannel outFactory l1Head _) as [r4 s4 |] eqn:Hagain; [| discriminate].
    destruct (getReadyChannel_returns _ _ _ _ _ Hagain) as (G4 & _ & Hr4).
    pose proof (grows_txChannels _ _ G4) as Ht4. simpl in Ht4, Ht2.
    destruct r4 as [[c4 |] [err |]]; try contradiction; simpl in Hrun.
    + eapply Hnext; [exact (proj1 Hr4) | | exact Hrun]. congruence.
    + injection Hrun as <- <- <-. congruence.
  - simpl in H. injection H as <- <- <-. exact Ht1.
Qed.

(** X5. No call other than [pruneSafeBlocks] lowers the number of
    [l1OriginLastSubmittedChannel]; [pruneSafeBlocks] leaves it or, when it
    clears the manager, sets it to the L1 origin of the new safe head. *)
Theorem l1Origin_never_decreases (c : call) s u s' :
  exec cfgProvider outFactory c s = Returned u s' ->
  match c with
  | CallPruneSafeBlocks newSafeHead =>
      l1OriginLastSubmittedChannel s' = l1OriginLastSubmittedChannel s
      \/ l1OriginLastSubmittedChannel s' = ref_L1Origin newSafeHead
  | _ =>
      id_Number (l1OriginLastSubmittedChannel s)
      <= id_Number (l1OriginLastSubmittedChannel s')
  end.
Proof.
  destruct c as [block | l1Head | id | id inclusionBlock | safe | safe]; simpl.
  - unfold bind, ret, AddL2Block. destruct (_ && _); intros [= _ <-]; simpl; lia.
  - unfold bind at 1.
    destruct (TxData cfgProvider outFactory l1Head s) as [r s1 |] eqn:Hrun; [| discriminate].
    intros [= _ <-]. apply TxData_evolves in Hrun. apply (evolves_l1Origin _ _ Hrun).
  - intros Hrun. apply TxFailed_evolves in Hrun. apply (evolves_l1Origin _ _ Hrun).
  - intros Hrun. apply TxConfirmed_evolves in Hrun. apply (evolves_l1Origin _ _ Hrun).
  - intros Hrun.
    apply pruneSafeBlocks_cases in Hrun as [-> | [Hclear | (n & c' & -> & _)]]; auto.
    apply Clear_result in Hclear as (_ & _ & _ & _ & _ & _ & Hl & _). auto.
  - intros Hrun. apply pruneChannels_evolves in Hrun. apply (evolves_l1Origin _ _ Hrun).
Qed.

Lemma TxConfirmed_unknown id inclusionBlock s :
  txChannels s !! id = None -> TxConfirmed id inclusionBlock s = Returned tt s.
Proof. intros Hid. unfold TxConfirmed, bind, get, ret. rewrite Hid. reflexivity. Qed.

Lemma TxFailed_unknown id s :
  txChannels s !! id = None -> TxFailed id s = Returned tt s.
Proof. intros Hid. unfold TxFailed, bind, get, ret. rewrite Hid. reflexivity. Qed.

(** X6. Once [TxConfirmed] or [TxFailed] has returned for an id, the id is
    not in [txChannels], and a further [TxConfirmed] or [TxFailed] of the same
    id changes nothing. *)
Theorem terminal_event_once (id : string) (inclusionBlock : BlockID) s u s' :
  TxConfirmed id inclusionBlock s = Returned u s' \/ TxFailed id s = Returned u s' ->
  txChannels s' !! id = None
  /\ (forall inclusionBlock', TxConfirmed id inclusionBlock' s' = Returned tt s')
  /\ TxFailed id s' = Returned tt s'.
Proof.
  intros Hrun.
  assert (Hgone : txChannels s' !! id = None).
  { destruct Hrun as [Hrun | Hrun].
    - unfold TxConfirmed, bind at 1, get in Hrun.
      destruct (txChannels s !! id) as [p |] eqn:Hid; [| injection Hrun as _ <-; exact Hid].
      unfold bind, modify, get in Hrun. simpl in Hrun.
      destruct (ch_TxConfirmed id inclusionBlock (heap s p)) as [[|] c'].
      + apply handleChannelInvalidated_returns in Hrun as (_ & _ & -> & _).
        simpl. apply lookup_delete_eq.
      + injection Hrun as _ <-. simpl. apply lookup_delete_eq.
    - unfold TxFailed, bind, get, modify, ret in Hrun.
      destruct (txChannels s !! id) as [p |] eqn:Hid; injection Hrun as _ <-;
        [simpl; apply lookup_delete_eq | exact Hid]. }
  split; [exact Hgone |]. split.
  - intros b'. apply TxConfirmed_unknown, Hgone.
  - apply TxFailed_unknown, Hgone.
Qed.

(** *** pruneChannels *)

Lemma safePrefix_again h (h1 h2 : L2BlockRef) q :
  ref_Number h1 <= ref_Number h2 ->
  drop (safePrefix h h2 (drop (safePrefix h h1 q) q)) (drop (safePrefix h h1 q) q)
  = drop (safePrefix h h2 q) q
  /\ drop (safePrefix h h1 (drop (safePrefix h h2 q) q)) (drop (safePrefix h h2 q) q)
     = drop (safePrefix h h2 q) q.
Proof.
  intros Hle. induction q as [| p q [IH1 IH2]]; simpl; [auto |].
  destruct (Z.ltb_spec (ref_Number h1) (ref_Number (LatestL2 (h p)))) as [H1 | H1];
    destruct (Z.ltb_spec (ref_Number h2) (ref_Number (LatestL2 (h p)))) as [H2 | H2];
    simpl; try lia.
  - destruct (Z.ltb_spec (ref_Number h1) (ref_Number (LatestL2 (h p)))); [| lia].
    destruct (Z.ltb_spec (ref_Number h2) (ref_Number (LatestL2 (h p)))); [| lia].
    auto.
  - destruct (Z.ltb_spec (ref_Number h2) (ref_Number (LatestL2 (h p)))); [lia |].
    auto.
  - auto.
Qed.

(** X7. Pruning the channel queue for two safe heads, in either order, gives
    the state that pruning once for the higher of the two gives; in
    particular [pruneChannels] run twice for one safe head is [pruneChannels]
    run once. *)
Theorem pruneChannels_twice (h1 h2 : L2BlockRef) s :
  ref_Number h1 <= ref_Number h2 ->
  (pruneChannels h1 >> pruneChannels h2) s = pruneChannels h2 s
  /\ (pruneChannels h2 >> pruneChannels h1) s = pruneChannels h2 s.
Proof.
  intros Hle. unfold pruneChannels, bind, modify. simpl.
  destruct (safePrefix_again (heap s) h1 h2 (channelQueue s) Hle) as [H12 H21].
  unfold set_channelQueue. simpl. rewrite H12, H21. auto.
Qed.

(** *** pruneSafeBlocks *)

(** X8. [pruneSafeBlocks] changes nothing when the block queue is empty or
    the safe head is the block just before the oldest block, and clears the
    manager, with the L1 origin of the safe head, when the safe head is not
    in the queue at the position its number gives: its number is further
    below the oldest block, above the newest, or the block there has another
    hash. *)
Theorem pruneSafeBlocks_outside_queue (newSafeHead : L2BlockRef) s :
  0 <= ref_Number newSafeHead /\ ref_Number newSafeHead + 1 < 2 ^ 64 ->
  queue.Len (blocks s) < 2 ^ 63 ->
  match blocks s with
  | [] => pruneSafeBlocks newSafeHead s = Returned tt s
  | oldestBlock :: _ =>
      let n := ref_Number newSafeHead + 1 - NumberU64 oldestBlock in
      (n = 0 -> pruneSafeBlocks newSafeHead s = Returned tt s)
      /\ (n < 0 \/ queue.Len (blocks s) < n
          \/ (exists b, 0 < n /\ blocks s !! Z.to_nat (n - 1) = Some b
                        /\ blk_Hash b <> ref_Hash newSafeHead) ->
          pruneSafeBlocks newSafeHead s = Clear (ref_L1Origin newSafeHead) s)
  end.
Proof.
  intros Hsafe Hlen. unfold pruneSafeBlocks.
  destruct (blocks s) as [| oldestBlock rest] eqn:Hbs; [reflexivity |].
  simpl queue.Peek. cbv iota zeta.
  assert (Hold : 0 <= NumberU64 oldestBlock < 2 ^ 64) by apply uint64_range.
  rewrite (uint64_small (ref_Number newSafeHead + 1)) by lia.
  unfold queue.Len in *.
  split.
  - intros Hn. destruct (Z.eqb_spec (ref_Number newSafeHead + 1) (NumberU64 oldestBlock));
      [reflexivity | lia].
  - intros Hout.
    destruct (Z.eqb_spec (ref_Number newSafeHead + 1) (NumberU64 oldestBlock)) as [He | Hne].
    { exfalso. destruct Hout as [Hn | [Hn | (b & Hn & _)]]; simpl in *; lia. }
    destruct (Z.ltb_spec (ref_Number newSafeHead + 1) (NumberU64 oldestBlock)) as [Hlt | Hge];
      [reflexivity |].
    set (n := ref_Number newSafeHead + 1 - NumberU64 oldestBlock) in *.
    rewrite (uint64_small n) by (unfold n; lia).
    rewrite (uint64_small (Z.of_nat (length (oldestBlock :: rest)))) by lia.
    destruct (Z.ltb_spec (Z.of_nat (length (oldestBlock :: rest))) n) as [Hbig | Hfit].
    { rewrite int64_small by (simpl in *; lia).
      destruct (index (oldestBlock :: rest) _) eqn:Hidx; [reflexivity |].
      exfalso. unfold index in Hidx.
      destruct (Z.ltb_spec (Z.of_nat (length (oldestBlock :: rest)) - 1) 0); [simpl in *; lia |].
      destruct (Z.leb_spec (Z.of_nat (length (oldestBlock :: rest)))
                  (Z.of_nat (length (oldestBlock :: rest)) - 1)); [lia |].
      simpl in Hidx. apply lookup_ge_None in Hidx. simpl in *. lia. }
    destruct Hout as [Hn | [Hn | (b & Hn & Hb & Hhash)]]; [unfold n in *; lia | lia |].
    rewrite (uint64_small (n - 1)) by lia.
    assert (Hidx : index (oldestBlock :: rest) (n - 1) = Some b).
    { apply index_Some. split; [lia | exact Hb]. }
    rewrite Hidx.
    destruct (N.eqb_spec (blk_Hash b) (ref_Hash newSafeHead)); [contradiction | reflexivity].
Qed.

(** *** rewindToBlock and handleChannelInvalidated *)

(** When [rewindToBlock] returns, the block was in the queue below the
    cursor and the cursor is now at it. *)
Lemma rewindToBlock_returned block s u s' :
  0 <= blockCursor s < 2 ^ 63 ->
  rewindToBlock block s = Returned u s' ->
  exists pos,
    blockPosition block s = Some pos
    /\ pos < blockCursor s
    /\ s' = set_blockCursor pos s.
Proof.
  intros Hcur Hrun.
  destruct (blockPosition block s) as [pos |] eqn:Hpos.
  - destruct (Z.lt_ge_cases pos (blockCursor s)) as [Hlt | Hge].
    + exists pos. split; [reflexivity | split; [exact Hlt |]].
      rewrite (rewindToBlock_below_cursor block s pos) in Hrun;
        [congruence | unfold is_int; lia | exact Hpos | exact Hlt].
    + rewrite (rewindToBlock_at_or_after_cursor block s pos Hcur Hpos Hge) in Hrun.
      discriminate.
  - destruct (rewindToBlock_absent block s Hpos) as [msg Hmsg]. congruence.
Qed.

(** X9. With a cursor that is not negative, [rewindToBlock] returns exactly
    when the block is in the block queue, at the position its number gives and
    with its hash, and the cursor is strictly greater than that position; it
    then sets the cursor to the position and changes nothing else.  In every
    other case it panics. *)
Theorem rewindToBlock_returns_iff (block : BlockID) s :
  0 <= blockCursor s < 2 ^ 63 ->
  (forall s',
      rewindToBlock block s = Returned tt s'
      <-> exists pos,
            blockPosition block s = Some pos
            /\ pos < blockCursor s
            /\ s' = set_blockCursor pos s)
  /\ ((exists msg, rewindToBlock block s = Panicked msg)
      <-> ~ exists pos, blockPosition block s = Some pos /\ pos < blockCursor s).
Proof.
  intros Hcur.
  assert (Hret : forall s',
    rewindToBlock block s = Returned tt s'
    <-> exists pos,
          blockPosition block s = Some pos
          /\ pos < blockCursor s
          /\ s' = set_blockCursor pos s).
  { intros s'. split.
    - apply rewindToBlock_returned, Hcur.
    - intros (pos & Hpos & Hlt & ->).
      apply rewindToBlock_below_cursor; [unfold is_int; lia | exact Hpos | exact Hlt]. }
  split; [exact Hret |]. split.
  - intros [msg Hmsg] (pos & Hpos & Hlt).
    assert (Hrun : rewindToBlock block s = Returned tt (set_blockCursor pos s)).
    { apply Hret. eauto. }
    congruence.
  - intros Hno. destruct (rewindToBlock block s) as [[] s1 |] eqn:Hrun; [| eauto].
    exfalso. apply Hno.
    apply (rewindToBlock_returned _ _ _ _ Hcur) in Hrun as (pos & Hpos & Hlt & _). eauto.
Qed.

(** X10. When [handleChannelInvalidated] returns, the channel queue is a
    prefix of the queue it was called with and does not hold the channel;
    when the channel was not in the queue (it was pruned or dropped before),
    the queue is as it was.  [currentChannel] is nil, the index and the
    blocks are untouched, and a cursor that was not negative did not move
    forward. *)
Theorem handleChannelInvalidated_keeps_older (c : ptr) s u s' :
  handleChannelInvalidated c s = Returned u s' ->
  channelQueue s' `prefix_of` channelQueue s
  /\ (c ∉ channelQueue s')
  /\ (c ∉ channelQueue s -> channelQueue s' = channelQueue s)
  /\ currentChannel s' = None
  /\ txChannels s' = txChannels s
  /\ blocks s' = blocks s
  /\ (0 <= blockCursor s < 2 ^ 63 -> blockCursor s' <= blockCursor s).
Proof.
  intros Hrun.
  pose proof (handleChannelInvalidated_returns _ _ _ _ Hrun) as (Hq & Hcur & Htx & _).
  pose proof (handleChannelInvalidated_evolves _ _ _ _ Hrun) as (E & _).
  split; [rewrite Hq; apply trimAt_prefix |].
  split; [rewrite Hq; intros Hin; apply trimAt_sublist in Hin as [_ Hne]; congruence |].
  split; [intros Hout; rewrite Hq; apply trimAt_absent, Hout |].
  split; [exact Hcur |]. split; [exact Htx |].
  split; [exact (evolves_blocks _ _ E) |].
  intros Hc. revert Hrun. unfold handleChannelInvalidated, bind, get, modify, ret.
  destruct (builder_blocks (heap s c)) as [| b bs]; [intros [= _ <-]; simpl; lia |].
  destruct (rewindToBlock (ToBlockID b) s) as [[] s1 |] eqn:Hrew; [| discriminate].
  intros [= _ <-]. simpl.
  apply (rewindToBlock_returned _ _ _ _ Hc) in Hrew as (pos & _ & Hlt & ->). simpl. lia.
Qed.

(** *** getReadyChannel and processBlocks *)

(** X11. When [getReadyChannel] returns, it returns either a channel that
    has tx data and no error, or no channel and an error.  It leaves the
    blocks, [tip], the index, [defaultCfg] and the L1 origin of the last
    submitted channel as they were, and the channel queue is the one of the
    call or that queue with one new channel at its tail. *)
Theorem getReadyChannel_channel_or_error (l1Head : BlockID) s ch e s' :
  getReadyChannel outFactory l1Head s = Returned (ch, e) s' ->
  ((exists p, ch = Some p /\ e = None /\ HasTxData (heap s' p) = true)
   \/ (ch = None /\ exists err, e = Some err))
  /\ blocks s' = blocks s /\ tip s' = tip s /\ txChannels s' = txChannels s
  /\ defaultCfg s' = defaultCfg s
  /\ l1OriginLastSubmittedChannel s' = l1OriginLastSubmittedChannel s
  /\ (channelQueue s' = channelQueue s
      \/ channelQueue s' = channelQueue s ++ [allocated s]).
Proof.
  intros Hrun.
  destruct (getReadyChannel_returns _ _ _ _ _ Hrun) as (G & _ & Hshape).
  destruct (getReadyChannel_evolves _ _ _ _ Hrun) as (_ & Hq & _).
  split.
  - destruct ch as [p |], e as [err |]; try contradiction.
    + left. exists p. destruct Hshape. auto.
    + right. eauto.
  - destruct G. auto 7.
Qed.

(** X12. In a state with the cursor within the block queue, [processBlocks]
    leaves the blocks and moves the cursor forward, by at most the number of
    pending blocks.  When it returns an error the cursor has not moved.  When
    it returns no error and blocks remain after the cursor, the current
    channel is full or has refused the block at the cursor with
    [ChannelFullError]. *)
Theorem processBlocks_advances_cursor s e s' :
  bounded s ->
  processBlocks s = Returned e s' ->
  blocks s' = blocks s
  /\ blockCursor s <= blockCursor s' <= queue.Len (blocks s)
  /\ (e <> None -> blockCursor s' = blockCursor s)
  /\ (e = None -> blockCursor s' < queue.Len (blocks s) ->
      exists p,
        currentChannel s = Some p
        /\ (IsFull (heap s' p) = true
            \/ exists b c0,
                 blocks s !! Z.to_nat (blockCursor s') = Some b
                 /\ AddBlock b c0 = (AddFull, heap s' p))).
Proof.
  intros Hb Hrun.
  pose proof (processBlocks_evolves _ _ _ Hrun) as (E & _ & _ & Hfwd & Herr).
  pose proof (evolves_bounded _ _ E Hb) as Hb'.
  pose proof (evolves_blocks _ _ E) as Hbl.
  split; [exact Hbl |].
  split; [destruct Hb' as [[? ?] _]; rewrite Hbl in *; specialize (Hfwd Hb); lia |].
  split; [exact Herr |].
  intros -> Hleft. revert Hrun. unfold processBlocks.
  destruct (currentChannel s) as [p |]; [| discriminate].
  destruct (addBlocks _ _ _ _) as [[[err |] c'] added] eqn:Hloop; [discriminate |].
  intros [= <-]. exists p. split; [reflexivity |].
  pose proof (fromCursor_length s Hb) as Hlen.
  destruct Hb as [[Hlo Hhi] Hmax].
  pose proof (addBlocks_count _ _ _ _ _ _ _ Hloop ltac:(lia) ltac:(lia)) as Hcount.
  simpl in Hleft. rewrite int64_small in Hleft by lia.
  simpl heap. rewrite Nat.eqb_refl. simpl blockCursor. rewrite int64_small by lia.
  apply addBlocks_stops in Hloop as [Hfull | (b & c0 & Hb0 & Hadd)]; [auto | | lia | lia | lia].
  right. exists b, c0. split; [| exact Hadd].
  unfold fromCursor in Hb0.
  destruct (Z.ltb_spec (blockCursor s) 0); [lia |].
  rewrite lookup_drop in Hb0. rewrite <- Hb0. f_equal. lia.
Qed.

(** *** What only some calls do *)

(** X13. Only [TxData] creates channels and index entries: every other call
    leaves the allocation counter, [defaultCfg] and the provider alone, keeps
    of the channel queue a sublist, and keeps of the index a part. *)
Theorem only_TxData_creates (c : call) s u s' :
  isTxData c = false ->
  exec cfgProvider outFactory c s = Returned u s' ->
  allocated s' = allocated s
  /\ defaultCfg s' = defaultCfg s
  /\ cfgQueries s' = cfgQueries s
  /\ channelQueue s' `sublist_of` channelQueue s
  /\ forall id p, txChannels s' !! id = Some p -> txChannels s !! id = Some p.
Proof.
  destruct c as [block | l1Head | id | id inclusionBlock | safe | safe]; simpl;
    try discriminate; intros _.
  - unfold bind, ret, AddL2Block. destruct (_ && _); intros [= _ <-]; simpl; auto.
  - unfold TxFailed, bind, get, modify, ret.
    destruct (txChannels s !! id) as [p |]; intros [= _ <-]; simpl; [| auto].
    repeat split; auto. intros id' p' [_ Hp]%lookup_delete_Some. exact Hp.
  - unfold TxConfirmed, bind at 1, get.
    destruct (txChannels s !! id) as [p |]; [| intros [= _ <-]; auto].
    unfold bind, modify, get. simpl.
    assert (Hdel : forall id' p',
      delete id (txChannels s) !! id' = Some p' -> txChannels s !! id' = Some p').
    { intros id' p' [_ Hp]%lookup_delete_Some. exact Hp. }
    destruct (ch_TxConfirmed id inclusionBlock (heap s p)) as [[|] c'].
    + intros Hinv.
      apply handleChannelInvalidated_returns in Hinv as (Hq & _ & Ht & Hd & Hn & Ha).
      simpl in *. rewrite Hq, Ht. repeat split; auto. apply trimAt_sublist_of.
    + intros [= _ <-]. simpl. repeat split; auto.
  - intros Hrun.
    apply pruneSafeBlocks_cases in Hrun as [-> | [Hclear | (n & c' & -> & _)]]; simpl; auto.
    apply Clear_result in Hclear as (_ & _ & _ & Hq & _ & Ht & _ & Ha & Hd & Hn).
    rewrite Hq, Ht. repeat split; auto; [apply sublist_nil_l |].
    intros id p. rewrite lookup_empty. discriminate.
  - unfold pruneChannels, modify. intros [= _ <-]. simpl.
    repeat split; auto. apply sublist_drop.
Qed.

(** X14. Only [AddL2Block] and [pruneSafeBlocks] change the block queue and
    [tip]: [TxData], [TxFailed], [TxConfirmed] and [pruneChannels] leave
    both as they were. *)
Theorem blocks_kept_by_other_calls (c : call) s u s' :
  match c with
  | CallAddL2Block _ | CallPruneSafeBlocks _ => False
  | _ => True
  end ->
  exec cfgProvider outFactory c s = Returned u s' ->
  blocks s' = blocks s /\ tip s' = tip s.
Proof.
  assert (Hev : evolves s s' -> blocks s' = blocks s /\ tip s' = tip s).
  { intros []. auto. }
  destruct c as [block | l1Head | id | id inclusionBlock | safe | safe]; simpl;
    try contradiction; intros _.
  - unfold bind at 1.
    destruct (TxData cfgProvider outFactory l1Head s) as [r s1 |] eqn:Hrun; [| discriminate].
    intros [= _ <-]. apply Hev. eapply TxData_evolves; eauto.
  - intros Hrun. apply Hev. eapply TxFailed_evolves; eauto.
  - intros Hrun. apply Hev. eapply TxConfirmed_evolves; eauto.
  - intros Hrun. apply Hev. eapply pruneChannels_evolves; eauto.
Qed.

(** *** TxData with nothing to send *)

(** X15. With no channel that has tx data and no pending block, [TxData]
    returns [io.EOF] and leaves the state as it was. *)
Theorem TxData_idle (l1Head : BlockID) s :
  Forall (fun p => HasTxData (heap s p) = false) (channelQueue s) ->
  queue.Len (blocks s) - blockCursor s = 0 ->
  TxData cfgProvider outFactory l1Head s = Returned (emptyTxData, Some EOF) s.
Proof.
  intros Hnone Hpend. unfold TxData, bind at 1.
  unfold getReadyChannel, bind, get, ret.
  rewrite (firstWithTxData_none _ _ Hnone).
  unfold pendingBlocks. rewrite Hpend. reflexivity.
Qed.

(** X16. When new blocks are pending, no channel has tx data, there is no
    current channel with space and the factory fails, [TxData] returns the
    error of the factory, wrapped, and leaves the state as it was: no channel
    is created and the cursor does not move. *)
Theorem TxData_factory_error (l1Head : BlockID) s err :
  Forall (fun p => HasTxData (heap s p) = false) (channelQueue s) ->
  pendingBlocks s <> 0 ->
  match currentChannel s with
  | Some p => IsFull (heap s p) = true
  | None => True
  end ->
  outFactory (defaultCfg s) (allocated s) = inl err ->
  TxData cfgProvider outFactory l1Head s
  = Returned (emptyTxData, Some (ErrCreatingChannelOut err)) s.
Proof.
  intros Hnone Hpend Hcur Hfail. unfold TxData, bind at 1.
  unfold getReadyChannel, bind, get, ret.
  rewrite (firstWithTxData_none _ _ Hnone).
  destruct (Z.eqb_spec (pendingBlocks s) 0); [contradiction |].
  unfold ensureChannelWithSpace. rewrite Hfail.
  destruct (currentChannel s) as [p |]; [rewrite Hcur |]; reflexivity.
Qed.

(** *** The current channel *)

Lemma current_at_tail_same s s' :
  channelQueue s' = channelQueue s -> currentChannel s' = currentChannel s ->
  current_at_tail s -> current_at_tail s'.
Proof. unfold current_at_tail. intros -> ->. auto. Qed.

Lemma current_at_tail_none s : currentChannel s = None -> current_at_tail s.
Proof. unfold current_at_tail. intros ->. discriminate. Qed.

Lemma ensureChannelWithSpace_tail l1Head s e s' :
  ensureChannelWithSpace outFactory l1Head s = Returned e s' ->
  current_at_tail s -> current_at_tail s'.
Proof.
  unfold ensureChannelWithSpace.
  assert (Hcreate :
    match outFactory (defaultCfg s) (allocated s) with
    | inl err => Returned (Some (ErrCreatingChannelOut err)) s
    | inr channelOut =>
        let pc := newChannel (defaultCfg s)
                    (id_Number (l1OriginLastSubmittedChannel s)) channelOut in
        let (p, s1) := alloc pc s in
        Returned None
          (set_channelQueue (channelQueue s1 ++ [p]) (set_currentChannel (Some p) s1))
    end = Returned e s' ->
    current_at_tail s -> current_at_tail s').
  { destruct (outFactory (defaultCfg s) (allocated s)) as [err | co]; simpl.
    - intros [= _ <-]. auto.
    - intros [= _ <-] _ p. simpl. intros [= <-]. right. apply last_snoc. }
  destruct (currentChannel s) as [p |] eqn:Hcur; [| exact Hcreate].
  destruct (IsFull (heap s p)); simpl; [exact Hcreate |].
  intros [= _ <-]. auto.
Qed.

Lemma getReadyChannel_tail l1Head s r s' :
  getReadyChannel outFactory l1Head s = Returned r s' ->
  current_at_tail s -> current_at_tail s'.
Proof.
  unfold getReadyChannel, bind, get, ret, panic.
  destruct (firstWithTxData (heap s) (channelQueue s)) as [ch |]; [intros [= _ <-]; auto |].
  destruct (pendingBlocks s =? 0); [intros [= _ <-]; auto |].
  destruct (ensureChannelWithSpace outFactory l1Head s) as [e1 s1 |] eqn:H1; [| discriminate].
  intros Hrun Ht. pose proof (ensureChannelWithSpace_tail _ _ _ _ H1 Ht) as T1.
  clear H1 Ht. revert Hrun.
  destruct e1 as [err |]; [intros [= _ <-]; exact T1 |].
  destruct (processBlocks s1) as [e2 s2 |] eqn:H2; [| discriminate].
  pose proof (processBlocks_grows _ _ _ H2) as (_ & C2).
  pose proof (processBlocks_evolves _ _ _ H2) as (_ & Q2 & _).
  pose proof (current_at_tail_same _ _ Q2 C2 T1) as T2.
  destruct e2 as [err |]; [intros [= _ <-]; exact T2 |].
  destruct (registerL1Block l1Head s2) as [u3 s3 |] eqn:H3; [| discriminate].
  pose proof (registerL1Block_grows _ _ _ _ H3) as (_ & C3).
  pose proof (registerL1Block_evolves _ _ _ _ H3) as (_ & Q3 & _).
  pose proof (current_at_tail_same _ _ Q3 C3 T2) as T3.
  destruct (outputFrames s3) as [e4 s4 |] eqn:H4; [| discriminate].
  pose proof (outputFrames_grows _ _ _ H4) as (_ & C4).
  pose proof (outputFrames_evolves _ _ _ H4) as (_ & Q4 & _).
  pose proof (current_at_tail_same _ _ Q4 C4 T3) as T4.
  destruct e4 as [err |]; [intros [= _ <-]; exact T4 |].
  destruct (currentChannel s4) as [p4 |]; [| discriminate].
  destruct (HasTxData (heap s4 p4)); intros [= _ <-]; exact T4.
Qed.

Lemma nextTxData_tail ch s r s' :
  nextTxData ch s = Returned r s' -> current_at_tail s -> current_at_tail s'.
Proof.
  intros Hrun.
  destruct (nextTxData_returns ch s) as (r' & s1 & Hrun' & Hq & Hc & _).
  rewrite Hrun' in Hrun. injection Hrun as _ <-. apply current_at_tail_same; assumption.
Qed.

Lemma handleChannelInvalidated_tail c s u s' :
  handleChannelInvalidated c s = Returned u s' -> current_at_tail s'.
Proof.
  intros Hrun. apply handleChannelInvalidated_returns in Hrun as (_ & Hcur & _).
  apply current_at_tail_none, Hcur.
Qed.

Lemma TxData_tail l1Head s r s' :
  TxData cfgProvider outFactory l1Head s = Returned r s' ->
  current_at_tail s -> current_at_tail s'.
Proof.
  intros Hrun Ht. pose proof Hrun as H. unfold TxData, bind at 1 in H.
  destruct (getReadyChannel outFactory l1Head s) as [r1 s1 |] eqn:Hready; [| discriminate].
  pose proof (getReadyChannel_tail _ _ _ _ Hready Ht) as T1.
  destruct r1 as [[ch |] [err |]]; simpl in H.
  - injection H as _ <-. exact T1.
  - clear H. rewrite (TxData_after_ready cfgProvider outFactory _ _ _ _ Hready) in Hrun.
    destruct (negb (NoneSubmitted (heap s1 ch))); [eapply nextTxData_tail; eauto |].
    cbv zeta in Hrun.
    destruct (Bool.eqb _ _).
    { eapply nextTxData_tail; [exact Hrun |].
      apply (current_at_tail_same s1); [reflexivity | reflexivity | exact T1]. }
    unfold bind at 1 in Hrun.
    destruct (handleChannelInvalidated ch _) as [u s2 |] eqn:Hinv; [| discriminate].
    apply handleChannelInvalidated_tail in Hinv.
    unfold bind at 1, modify in Hrun. unfold bind in Hrun.
    destruct (getReadyChannel outFactory l1Head _) as [r4 s4 |] eqn:Hagain; [| discriminate].
    assert (T4 : current_at_tail s4).
    { apply (getReadyChannel_tail _ _ _ _ Hagain).
      apply (current_at_tail_same s2); [reflexivity | reflexivity | exact Hinv]. }
    destruct r4 as [c4 [err |]]; simpl in Hrun.
    + injection Hrun as _ <-. exact T4.
    + eapply nextTxData_tail; eauto.
  - injection H as _ <-. exact T1.
  - discriminate.
Qed.

Lemma last_drop_keep {A} n (l : list A) : drop n l = [] \/ last (drop n l) = last l.
Proof.
  revert l. induction n as [| n IH]; intros l; [rewrite drop_0; auto |].
  destruct l as [| x l]; [auto |]. simpl.
  destruct l as [| y l]; [left; apply drop_nil |].
  destruct (IH (y :: l)) as [He | Hl]; [auto |]. right. rewrite Hl. reflexivity.
Qed.

Lemma exec_tail c s u s' :
  exec cfgProvider outFactory c s = Returned u s' ->
  current_at_tail s -> current_at_tail s'.
Proof.
  destruct c as [block | l1Head | id | id inclusionBlock | safe | safe]; simpl.
  - unfold bind, ret, AddL2Block. destruct (_ && _); intros [= _ <-]; auto.
  - unfold bind at 1.
    destruct (TxData cfgProvider outFactory l1Head s) as [r s1 |] eqn:Hrun; [| discriminate].
    intros [= _ <-]. eapply TxData_tail; eauto.
  - unfold TxFailed, bind, get, modify, ret.
    destruct (txChannels s !! id) as [p |]; intros [= _ <-]; auto.
  - unfold TxConfirmed, bind at 1, get.
    destruct (txChannels s !! id) as [p |]; [| intros [= _ <-]; auto].
    unfold bind, modify, get. simpl.
    destruct (ch_TxConfirmed id inclusionBlock (heap s p)) as [[|] c'].
    + intros Hinv _. eapply handleChannelInvalidated_tail; eauto.
    + intros [= _ <-]. auto.
  - intros Hrun Ht.
    apply pruneSafeBlocks_cases in Hrun as [-> | [Hclear | (n & c' & -> & _)]]; auto.
    apply Clear_result in Hclear as (_ & _ & _ & _ & Hcur & _).
    apply current_at_tail_none, Hcur.
  - unfold pruneChannels, modify. intros [= _ <-] Ht p. simpl. intros Hp.
    destruct (last_drop_keep (safePrefix (heap s) safe (channelQueue s)) (channelQueue s))
      as [He | Hl]; [auto |].
    destruct (Ht p Hp) as [Hq | Hq]; [left; rewrite Hq; apply drop_nil |].
    right. rewrite Hl. exact Hq.
Qed.

(** X17. In every state a fresh or cleared manager reaches by the public
    operations, a current channel is the last channel of the channel queue,
    unless the queue is empty ([pruneChannels] can drop the current channel
    from the queue without resetting [currentChannel]). *)
Theorem run_keeps_current_at_tail (cs : list call) s0 s :
  initial cfgProvider s0 ->
  run cfgProvider outFactory cs s0 = Returned tt s ->
  forall p, currentChannel s = Some p ->
            channelQueue s = [] \/ last (channelQueue s) = Some p.
Proof.
  intros Hinit Hrun.
  assert (H0 : current_at_tail s0).
  { destruct Hinit as [[h ->] | (s1 & l1Origin & Hclear)];
      [apply current_at_tail_none; reflexivity |].
    apply Clear_result in Hclear as (_ & _ & _ & _ & Hcur & _).
    apply current_at_tail_none, Hcur. }
  clear Hinit. revert s0 H0 Hrun.
  induction cs as [| c cs IH]; simpl; intros s0 H0.
  - intros [= <-]. exact H0.
  - unfold bind.
    destruct (exec cfgProvider outFactory c s0) as [u s1 |] eqn:Hexec; [| discriminate].
    apply IH. eapply exec_tail; eauto.
Qed.

(** *** AddL2Block after Clear *)

(** X18. After [Clear], [AddL2Block] accepts any block [b], whatever its
    parent.  The next block [b'] is then refused with [ErrReorg] exactly when
    [b] has a hash other than the zero hash and [b'] does not name it as
    parent, and is queued behind [b] in every other case. *)
Theorem AddL2Block_after_Clear (l1Origin : BlockID) (b b' : Block) s :
  exists s1,
    (Clear l1Origin >> AddL2Block b) s = Returned None s1
    /\ blocks s1 = [b] /\ tip s1 = blk_Hash b
    /\ (AddL2Block b' s1 = Returned (Some ErrReorg) s1
        <-> blk_Hash b <> zeroHash /\ blk_ParentHash b' <> blk_Hash b)
    /\ ((exists s2, AddL2Block b' s1 = Returned None s2
                    /\ blocks s2 = [b; b'] /\ tip s2 = blk_Hash b')
        <-> blk_Hash b = zeroHash \/ blk_ParentHash b' = blk_Hash b).
Proof.
  eexists. split; [reflexivity |]. split; [reflexivity |]. split; [reflexivity |].
  unfold AddL2Block. simpl.
  destruct (N.eqb_spec (blk_Hash b) zeroHash) as [Hz | Hz];
    destruct (N.eqb_spec (blk_Hash b) (blk_ParentHash b')) as [Hp | Hp]; simpl.
  - split; [split; [discriminate | tauto] |]. split; [auto | intros _; eauto].
  - split; [split; [discriminate | tauto] |]. split; [auto | intros _; eauto].
  - split; [split; [discriminate | intros [_ Hne]; congruence] |].
    split; [auto | intros _; eauto].
  - split; [split; [intros _; split; congruence | reflexivity] |].
    split; [intros (s2 & Heq & _); discriminate | intros [? | ?]; congruence].
Qed.

End Operations.

(** * Concrete runs of the properties *)

Import Scenario.
#[local] Existing Instance SpecChannel.api.

(** The three cases of [TxData] on concrete states: channel 0 being
    submitted ([sent1]); channel 0 just built and the provider unchanged
    ([queued3]); channel 0 just built and the provider flipped to blobs
    ([queued3Flipping]), where channel 0 is dropped and the frame comes from
    channel 1, built under the new config. *)
Lemma TxData_reconfiguration_order_witness :
  (getReadyChannel SpecChannel.outFactory (l1 96) sent1 = Returned (Some 0%nat, None) sent1
   /\ exists s2,
        TxData steady SpecChannel.outFactory (l1 96) sent1
        = Returned (fst (NextTxData (heap sent1 0%nat)), None) s2
        /\ nextTxData (Some 0%nat) sent1
           = Returned (fst (NextTxData (heap sent1 0%nat)), None) s2
        /\ cfgQueries s2 = cfgQueries sent1
        /\ defaultCfg s2 = defaultCfg sent1)
  /\ (getReadyChannel SpecChannel.outFactory (l1 95) queued3 = Returned (Some 0%nat, None) built3
      /\ exists s2,
           TxData steady SpecChannel.outFactory (l1 95) queued3
           = Returned (fst (NextTxData (heap built3 0%nat)), None) s2
           /\ channelQueue s2 = channelQueue built3
           /\ (firstWithTxData (heap queued3) (channelQueue queued3) <> None ->
               channelQueue s2 = channelQueue queued3)
           /\ cfgQueries s2 = S (cfgQueries queued3)
           /\ defaultCfg s2 = defaultCfg queued3)
  /\ (getReadyChannel SpecChannel.outFactory (l1 95) queued3Flipping
      = Returned (Some 0%nat, None) built3Flipping
      /\ (exists tx s3,
            TxData flipping SpecChannel.outFactory (l1 95) queued3Flipping
            = Returned (tx, None) s3
            /\ tx_ID_String tx = "1:0"
            /\ channelQueue s3 = [1%nat])
      /\ forall r s3,
           TxData flipping SpecChannel.outFactory (l1 95) queued3Flipping = Returned r s3 ->
           defaultCfg s3 = flipping (cfgQueries queued3Flipping)
           /\ cfgQueries s3 = S (cfgQueries queued3Flipping)).
Proof.
  assert (H1 : getReadyChannel SpecChannel.outFactory (l1 96) sent1 = Returned (Some 0%nat, None) sent1)
    by (vm_compute; reflexivity).
  assert (H2 : getReadyChannel SpecChannel.outFactory (l1 95) queued3 = Returned (Some 0%nat, None) built3)
    by (vm_compute; reflexivity).
  assert (H3 : getReadyChannel SpecChannel.outFactory (l1 95) queued3Flipping
               = Returned (Some 0%nat, None) built3Flipping)
    by (vm_compute; reflexivity).
  assert (N1 : NoneSubmitted (heap sent1 0%nat) = false) by (vm_compute; reflexivity).
  assert (N2 : NoneSubmitted (heap built3 0%nat) = true) by (vm_compute; reflexivity).
  assert (N3 : NoneSubmitted (heap built3Flipping 0%nat) = true) by (vm_compute; reflexivity).
  assert (B2 : Bool.eqb (UseBlobs (steady (cfgQueries queued3))) (UseBlobs (defaultCfg queued3))
               = true) by (vm_compute; reflexivity).
  assert (B3 : Bool.eqb (UseBlobs (flipping (cfgQueries queued3Flipping)))
                 (UseBlobs (defaultCfg queued3Flipping)) = false) by (vm_compute; reflexivity).
  pose proof (TxData_reconfiguration_order steady SpecChannel.outFactory (l1 96) sent1 0%nat sent1 H1) as T1.
  pose proof (TxData_reconfiguration_order steady SpecChannel.outFactory (l1 95) queued3 0%nat built3 H2) as T2.
  pose proof (TxData_reconfiguration_order flipping SpecChannel.outFactory (l1 95) queued3Flipping 0%nat
                built3Flipping H3) as T3.
  cbv zeta in T1, T2, T3.
  rewrite N1 in T1. rewrite N2, B2 in T2. rewrite N3, B3 in T3.
  simpl negb in T1, T2, T3. cbv iota in T1, T2, T3.
  split; [split; [exact H1 | exact T1] |].
  split; [split; [exact H2 | exact T2] |].
  split; [exact H3 |].
  split; [| exact (proj2 (proj2 T3))].
  eexists _, _. split; [vm_compute; reflexivity |].
  split; vm_compute; reflexivity.
Defined.


(** [reachable] from a run of [fresh]. *)
Lemma reachable_after cs s :
  run steady SpecChannel.outFactory cs fresh = Returned tt s -> reachable steady SpecChannel.outFactory s.
Proof.
  intros Hrun. exists fresh, cs. split; [| exact Hrun].
  left. exists noChannels. reflexivity.
Qed.



(** [getReadyChannel] on [sent1], whose channel 0 has two frames left, and on
    [fresh], which has no channel and no block. *)
Lemma getReadyChannel_first_or_no_data_witness :
  getReadyChannel SpecChannel.outFactory (l1 96) sent1 = Returned (Some 0%nat, None) sent1
  /\ getReadyChannel SpecChannel.outFactory (l1 96) fresh = Returned (None, Some EOF) fresh.
Proof.
  split.
  - apply (proj1 (getReadyChannel_first_or_no_data SpecChannel.outFactory (l1 96) sent1) [] 0%nat []).
    + vm_compute. reflexivity.
    + constructor.
    + vm_compute. reflexivity.
  - apply (proj2 (getReadyChannel_first_or_no_data SpecChannel.outFactory (l1 96) fresh)).
    + constructor.
    + reflexivity.
Defined.

(** [sent1] has blocks #10..#12 and the cursor at 3: block #11 becoming safe
    dequeues two blocks and leaves the cursor at 1. *)
Lemma pruneSafeBlocks_dequeues_witness :
  blocks sent1 = [blk 10; blk 11; blk 12]
  /\ blockCursor sent1 = 3
  /\ pruneSafeBlocks (safe 11) sent1
     = Returned tt (set_blockCursor 1 (set_blocks [blk 12] sent1)).
Proof.
  assert (Hb : blocks sent1 = [blk 10; blk 11; blk 12]) by (vm_compute; reflexivity).
  assert (Hc : blockCursor sent1 = 3) by (vm_compute; reflexivity).
  split; [exact Hb |]. split; [exact Hc |].
  pose proof (pruneSafeBlocks_dequeues (safe 11) sent1 (blk 10) [blk 11; blk 12] (blk 11) Hb)
    as T.
  cbv zeta in T. rewrite Hb, Hc in T.
  apply T.
  - vm_compute. split; [discriminate | reflexivity].
  - vm_compute. split; [discriminate | reflexivity].
  - vm_compute. reflexivity.
  - vm_compute. split; [reflexivity | discriminate].
  - reflexivity.
  - reflexivity.
Defined.

(** C4 as stated fails: with blocks #10 and #11 queued and the cursor at 0,
    [n = 2] satisfies [0 < n <= len(blocks)] and [blocks[1]] has the hash of
    the safe head, yet [pruneSafeBlocks] panics instead of setting the
    cursor to [max(0, 0 - 2)]. *)
Lemma pruneSafeBlocks_panics_below_cursor :
  exists s,
    reachable steady SpecChannel.outFactory s
    /\ blocks s = [blk 10; blk 11]
    /\ blockCursor s = 0
    /\ ref_Number (safe 11) + 1 - NumberU64 (blk 10) = 2
    /\ blk_Hash (blk 11) = ref_Hash (safe 11)
    /\ pruneSafeBlocks (safe 11) s = Panicked "negative blockCursor".
Proof.
  exists (after steady [CallAddL2Block (blk 10); CallAddL2Block (blk 11)] fresh).
  split; [apply (reachable_after [CallAddL2Block (blk 10); CallAddL2Block (blk 11)]);
          vm_compute; reflexivity |].
  repeat split; vm_compute; reflexivity.
Qed.

(** C5. After blocks #10..#12 went into channel 0, two frames were sent and
    the first was confirmed too late, the cursor is back at 0 and block #10
    is in the queue at position 0.  [rewindToBlock] for block #10 panics
    although the block is there: the cursor is not strictly greater than its
    position.  This is what the late confirmation of the second frame
    runs into. *)
Theorem rewindToBlock_panics_on_present_block :
  exists s,
    reachable steady SpecChannel.outFactory s
    /\ blocks s = [blk 10; blk 11; blk 12]
    /\ blockPosition (ToBlockID (blk 10)) s = Some 0
    /\ blockCursor s = 0
    /\ rewindToBlock (ToBlockID (blk 10)) s
       = Panicked "tried to rewind to nonexistent block"
    /\ TxConfirmed "0:1" (l1 200) s
       = Panicked "tried to rewind to nonexistent block".
Proof.
  exists lateConfirmed.
  split; [apply (reachable_after lateConfirmedRun); vm_compute; reflexivity |].
  assert (Hpos : blockPosition (ToBlockID (blk 10)) lateConfirmed = Some 0)
    by (vm_compute; reflexivity).
  assert (Hcur : blockCursor lateConfirmed = 0) by (vm_compute; reflexivity).
  split; [vm_compute; reflexivity |].
  split; [exact Hpos |]. split; [exact Hcur |].
  split; [| vm_compute; reflexivity].
  apply (rewindToBlock_at_or_after_cursor _ _ 0); [rewrite Hcur; lia | exact Hpos |].
  rewrite Hcur. lia.
Qed.

(** In [twoChannels] the queue is [0; 1] and the cursor at 6; channel 1
    starts with block #13, at position 3: invalidating it leaves channel 0
    and moves the cursor to 3. *)
Lemma handleChannelInvalidated_trims_witness :
  channelQueue twoChannels = [0%nat] ++ 1%nat :: []
  /\ blockCursor twoChannels = 6
  /\ handleChannelInvalidated 1%nat twoChannels
     = Returned tt
         (set_currentChannel None (set_channelQueue [0%nat] (set_blockCursor 3 twoChannels))).
Proof.
  assert (Hq : channelQueue twoChannels = [0%nat] ++ 1%nat :: []) by (vm_compute; reflexivity).
  assert (Hc : blockCursor twoChannels = 6) by (vm_compute; reflexivity).
  assert (Hb : builder_blocks (heap twoChannels 1%nat) = [blk 13; blk 14; blk 15])
    by (vm_compute; reflexivity).
  assert (Hp : blockPosition (ToBlockID (blk 13)) twoChannels = Some 3)
    by (vm_compute; reflexivity).
  split; [exact Hq |]. split; [exact Hc |].
  pose proof (handleChannelInvalidated_trims 1%nat twoChannels [0%nat] [] Hq) as T.
  rewrite Hb, Hp, Hc in T.
  apply T.
  - intros Hin. apply list_elem_of_singleton in Hin. discriminate.
  - unfold is_int. lia.
  - lia.
Defined.

(** C6 as stated fails: in [halfSafe] channel 0 is in the queue, its first
    block #10 was dequeued as safe, and [handleChannelInvalidated] panics
    instead of returning with the queue cut and [currentChannel] reset. *)
Lemma handleChannelInvalidated_panics_on_dequeued_block :
  exists s,
    reachable steady SpecChannel.outFactory s
    /\ channelQueue s = [0%nat]
    /\ 0%nat ∈ channelQueue s
    /\ handleChannelInvalidated 0%nat s = Panicked "index out of range".
Proof.
  exists halfSafe.
  assert (Hq : channelQueue halfSafe = [0%nat]) by (vm_compute; reflexivity).
  split; [apply (reachable_after halfSafeRun); vm_compute; reflexivity |].
  split; [exact Hq |].
  split; [rewrite Hq; left |].
  vm_compute. reflexivity.
Qed.

(** C8 as stated fails: in [requeued], which the public operations reach,
    channel 2 has latest L2 number 12, which is at most the number 12 of the
    safe head, and [pruneChannels] leaves it in the queue, behind channel 1
    whose latest L2 number is 15. *)
Lemma pruneChannels_keeps_channel_behind_unsafe :
  exists s s',
    reachable steady SpecChannel.outFactory s
    /\ channelQueue s = [1%nat; 2%nat]
    /\ ref_Number (LatestL2 (heap s 1%nat)) = 15
    /\ ref_Number (LatestL2 (heap s 2%nat)) = 12
    /\ ref_Number (LatestL2 (heap s 2%nat)) <= ref_Number (safe 12)
    /\ pruneChannels (safe 12) s = Returned tt s'
    /\ channelQueue s' = [1%nat; 2%nat]
    /\ 2%nat ∈ channelQueue s'.
Proof.
  exists requeued. eexists.
  split; [apply (reachable_after requeuedRun); vm_compute; reflexivity |].
  split; [vm_compute; reflexivity |].
  split; [vm_compute; reflexivity |].
  split; [vm_compute; reflexivity |].
  split; [vm_compute; discriminate |].
  split; [reflexivity |].
  assert (Hq : channelQueue (set_channelQueue
             (drop (safePrefix (heap requeued) (safe 12) (channelQueue requeued))
                (channelQueue requeued)) requeued) = [1%nat; 2%nat])
    by (vm_compute; reflexivity).
  split; [exact Hq |]. rewrite Hq. right. left.
Qed.

(** [Clear] on [sent1], then block #20 arrives: no channel was created
    since, [defaultCfg] is the one of [sent1], and the channel
    [ensureChannelWithSpace] creates is built from it. *)
Lemma Clear_keeps_defaultCfg_witness :
  run steady SpecChannel.outFactory [CallAddL2Block (blk 20)] cleared = Returned tt restarted
  /\ allocated restarted = allocated cleared
  /\ defaultCfg restarted = defaultCfg sent1
  /\ exists s3,
       ensureChannelWithSpace SpecChannel.outFactory (l1 97) restarted = Returned None s3
       /\ currentChannel s3 = Some 1%nat
       /\ channelQueue s3 = [1%nat]
       /\ heap s3 1%nat
          = newChannel (defaultCfg sent1) 96 (SpecChannel.mkChannelOut 1 3 [] 0).
Proof.
  assert (Hrun : run steady SpecChannel.outFactory [CallAddL2Block (blk 20)] cleared
                 = Returned tt restarted) by (vm_compute; reflexivity).
  assert (Ha : allocated restarted = allocated cleared) by (vm_compute; reflexivity).
  split; [exact Hrun |]. split; [exact Ha |].
  destruct (Clear_keeps_defaultCfg steady SpecChannel.outFactory (l1 96) sent1)
    as (s' & Hclear & _ & _ & _ & _ & _ & _ & _ & _ & Hnext).
  assert (Hc : Clear (l1 96) sent1 = Returned tt cleared) by reflexivity.
  rewrite Hc in Hclear. injection Hclear as <-.
  destruct (Hnext _ _ (l1 97) Hrun Ha) as [Hd Hmatch].
  split; [exact Hd |].
  assert (Hf : SpecChannel.outFactory (defaultCfg sent1) (allocated restarted)
               = inr (SpecChannel.mkChannelOut 1 3 [] 0)) by (vm_compute; reflexivity).
  rewrite Hf in Hmatch.
  assert (Hn : allocated restarted = 1%nat) by (vm_compute; reflexivity).
  assert (Hl : id_Number (l1OriginLastSubmittedChannel restarted) = 96)
    by (vm_compute; reflexivity).
  rewrite Hn, Hl in Hmatch. exact Hmatch.
Defined.

(** *** Further runs *)

(** A block whose parent is not the tip is refused and nothing changes; the
    child of the tip is queued. *)
Example AddL2Block_on_sent1 :
  AddL2Block (blk 20) sent1 = Returned (Some ErrReorg) sent1
  /\ exists s,
       AddL2Block (blk 13) sent1 = Returned None s
       /\ blocks s = [blk 10; blk 11; blk 12; blk 13]
       /\ tip s = blk_Hash (blk 13).
Proof.
  split; [vm_compute; reflexivity |].
  eexists. split; [reflexivity |]. split; vm_compute; reflexivity.
Qed.

(** Channel 0 of [confirmed3] is fully submitted with latest L2 block #12 and
    [maxInclusionBlock] 90: the check fails for a node at L1 block 91 whose
    safe head is #11, and passes once the safe head is #12 or while its L1
    block is 90. *)
Example CheckExpectedProgress_on_confirmed3 :
  CheckExpectedProgress (mkSyncStatus (l1 91) (safe 11)) confirmed3
  = Returned (Some ErrNoProgress) confirmed3
  /\ CheckExpectedProgress (mkSyncStatus (l1 91) (safe 12)) confirmed3
     = Returned None confirmed3
  /\ CheckExpectedProgress (mkSyncStatus (l1 90) (safe 11)) confirmed3
     = Returned None confirmed3.
Proof. repeat split; vm_compute; reflexivity. Qed.

(** A safe head #11 whose hash is not the one of the queued block #11 is a
    reorg: the manager is cleared and the L1 origin of the safe head kept. *)
Example pruneSafeBlocks_reorg_clears :
  exists s,
    pruneSafeBlocks (mkL2BlockRef 4242%N 11 0%N 0 (l1 93) 0) sent1 = Returned tt s
    /\ blocks s = [] /\ blockCursor s = 0 /\ channelQueue s = []
    /\ l1OriginLastSubmittedChannel s = l1 93.
Proof.
  eexists. split; [vm_compute; reflexivity |]. repeat split.
Qed.

(** A failed frame is sent again under a fresh id. *)
Example TxFailed_then_TxData_resends :
  exists tx1 s1 tx2 s2,
    TxData steady SpecChannel.outFactory (l1 95) queued3 = Returned (tx1, None) s1
    /\ TxData steady SpecChannel.outFactory (l1 95)
         (after steady [CallTxFailed "0:0"] s1) = Returned (tx2, None) s2
    /\ tx_ID_String tx1 = "0:0" /\ tx_ID_String tx2 = "0:1"
    /\ SpecChannel.tx_frame tx1 = SpecChannel.tx_frame tx2.
Proof.
  eexists _, _, _, _. split; [vm_compute; reflexivity |].
  split; [vm_compute; reflexivity |]. repeat split.
Qed.


(** * Concrete runs of the further properties *)

(** The run that ends in [halfSafe] (three blocks, a frame sent, two blocks
    pruned as safe) leaves the cursor at 1 of 1 block. *)
Lemma run_keeps_cursor_in_bounds_witness :
  initial steady fresh
  /\ Z.of_nat (length halfSafeRun) < 2 ^ 63
  /\ run steady SpecChannel.outFactory halfSafeRun fresh = Returned tt halfSafe
  /\ (0 <= blockCursor halfSafe <= queue.Len (blocks halfSafe)
      /\ pendingBlocks halfSafe = Z.of_nat (length (fromCursor halfSafe))).
Proof.
  assert (Hinit : initial steady fresh) by (left; exists noChannels; reflexivity).
  assert (Hlen : Z.of_nat (length halfSafeRun) < 2 ^ 63) by (vm_compute; reflexivity).
  assert (Hrun : run steady SpecChannel.outFactory halfSafeRun fresh = Returned tt halfSafe)
    by (vm_compute; reflexivity).
  split; [exact Hinit |]. split; [exact Hlen |]. split; [exact Hrun |].
  exact (run_keeps_cursor_in_bounds steady SpecChannel.outFactory halfSafeRun fresh halfSafe
           Hinit Hlen Hrun).
Defined.

(** The blocks of [twoChannels] are #10..#15, each the child of the one
    before, and [tip] is the hash of #15. *)
Lemma run_keeps_blocks_chained_witness :
  initial steady fresh
  /\ run steady SpecChannel.outFactory twoChannelsRun fresh = Returned tt twoChannels
  /\ (linked (blocks twoChannels)
      /\ forall b, last (blocks twoChannels) = Some b -> tip twoChannels = blk_Hash b).
Proof.
  assert (Hinit : initial steady fresh) by (left; exists noChannels; reflexivity).
  assert (Hrun : run steady SpecChannel.outFactory twoChannelsRun fresh
                 = Returned tt twoChannels) by (vm_compute; reflexivity).
  split; [exact Hinit |]. split; [exact Hrun |].
  exact (run_keeps_blocks_chained steady SpecChannel.outFactory twoChannelsRun fresh
           twoChannels Hinit Hrun).
Defined.

(** The queue of [twoChannels] holds the channels 0 and 1, once each. *)
Lemma run_keeps_queue_distinct_witness :
  initial steady fresh
  /\ run steady SpecChannel.outFactory twoChannelsRun fresh = Returned tt twoChannels
  /\ (NoDup (channelQueue twoChannels)
      /\ forall p, p ∈ channelQueue twoChannels -> (p < allocated twoChannels)%nat).
Proof.
  assert (Hinit : initial steady fresh) by (left; exists noChannels; reflexivity).
  assert (Hrun : run steady SpecChannel.outFactory twoChannelsRun fresh
                 = Returned tt twoChannels) by (vm_compute; reflexivity).
  split; [exact Hinit |]. split; [exact Hrun |].
  exact (run_keeps_queue_distinct steady SpecChannel.outFactory twoChannelsRun fresh
           twoChannels Hinit Hrun).
Defined.

(** The first [TxData] on [queued3] returns the frame with id "0:0" and
    enters that id in the index. *)
Lemma TxData_registers_returned_id_witness :
  TxData steady SpecChannel.outFactory (l1 95) queued3
  = Returned (fst (NextTxData (heap built3 0%nat)), None) sent1
  /\ exists ch,
       txChannels sent1
       = <[tx_ID_String (fst (NextTxData (heap built3 0%nat))) := ch]> (txChannels queued3).
Proof.
  assert (Hrun : TxData steady SpecChannel.outFactory (l1 95) queued3
                 = Returned (fst (NextTxData (heap built3 0%nat)), None) sent1)
    by (vm_compute; reflexivity).
  split; [exact Hrun |].
  exact (TxData_registers_returned_id steady SpecChannel.outFactory (l1 95) queued3 _ _ _ Hrun).
Defined.

(** The first [TxData] on [queued3] raises the L1 origin of the last
    submitted channel from 0 to 90, the L1 origin of the blocks. *)
Lemma l1Origin_never_decreases_witness :
  exec steady SpecChannel.outFactory (CallTxData (l1 95)) queued3 = Returned tt sent1
  /\ id_Number (l1OriginLastSubmittedChannel queued3)
     <= id_Number (l1OriginLastSubmittedChannel sent1).
Proof.
  assert (Hrun : exec steady SpecChannel.outFactory (CallTxData (l1 95)) queued3
                 = Returned tt sent1) by (vm_compute; reflexivity).
  split; [exact Hrun |].
  exact (l1Origin_never_decreases steady SpecChannel.outFactory (CallTxData (l1 95))
           queued3 tt sent1 Hrun).
Defined.

(** After the confirmation of "0:0" on [sent1], the id is gone and a second
    confirmation or a failure of it changes nothing. *)
Lemma terminal_event_once_witness :
  TxConfirmed "0:0" (l1 80) sent1 = Returned tt confirmed1
  /\ txChannels confirmed1 !! "0:0" = None
  /\ TxConfirmed "0:0" (l1 200) confirmed1 = Returned tt confirmed1
  /\ TxFailed "0:0" confirmed1 = Returned tt confirmed1.
Proof.
  assert (Hrun : TxConfirmed "0:0" (l1 80) sent1 = Returned tt confirmed1)
    by (vm_compute; reflexivity).
  destruct (terminal_event_once "0:0" (l1 80) sent1 tt confirmed1 (or_introl Hrun))
    as (Hgone & Hconf & Hfail).
  split; [exact Hrun |]. split; [exact Hgone |]. split; [exact (Hconf (l1 200)) | exact Hfail].
Defined.

(** Pruning [twoChannels] for block #11 and then for block #12 is pruning
    it for block #12. *)
Lemma pruneChannels_twice_witness :
  ref_Number (safe 11) <= ref_Number (safe 12)
  /\ (pruneChannels (safe 11) >> pruneChannels (safe 12)) twoChannels
     = pruneChannels (safe 12) twoChannels
  /\ (pruneChannels (safe 12) >> pruneChannels (safe 11)) twoChannels
     = pruneChannels (safe 12) twoChannels.
Proof.
  assert (Hle : ref_Number (safe 11) <= ref_Number (safe 12)) by (vm_compute; discriminate).
  split; [exact Hle |].
  exact (pruneChannels_twice (safe 11) (safe 12) twoChannels Hle).
Defined.

(** A safe head #20 is above the blocks #10..#12 of [sent1]: the manager is
    cleared. *)
Lemma pruneSafeBlocks_outside_queue_witness :
  blocks sent1 = [blk 10; blk 11; blk 12]
  /\ pruneSafeBlocks (safe 20) sent1 = Clear (ref_L1Origin (safe 20)) sent1.
Proof.
  assert (Hb : blocks sent1 = [blk 10; blk 11; blk 12]) by (vm_compute; reflexivity).
  split; [exact Hb |].
  assert (Hsafe : 0 <= ref_Number (safe 20) /\ ref_Number (safe 20) + 1 < 2 ^ 64)
    by (vm_compute; split; [discriminate | reflexivity]).
  assert (Hlen : queue.Len (blocks sent1) < 2 ^ 63) by (vm_compute; reflexivity).
  pose proof (pruneSafeBlocks_outside_queue (safe 20) sent1 Hsafe Hlen) as T.
  rewrite Hb in T. cbv zeta in T. destruct T as [_ T]. apply T.
  right. left. vm_compute. reflexivity.
Defined.

(** In [twoChannels] the cursor is at 6 and block #13 at position 3:
    [rewindToBlock] moves the cursor to 3. *)
Lemma rewindToBlock_returns_iff_witness :
  0 <= blockCursor twoChannels < 2 ^ 63
  /\ blockPosition (ToBlockID (blk 13)) twoChannels = Some 3
  /\ rewindToBlock (ToBlockID (blk 13)) twoChannels
     = Returned tt (set_blockCursor 3 twoChannels).
Proof.
  assert (Hcur : 0 <= blockCursor twoChannels < 2 ^ 63)
    by (vm_compute; split; [discriminate | reflexivity]).
  assert (Hpos : blockPosition (ToBlockID (blk 13)) twoChannels = Some 3)
    by (vm_compute; reflexivity).
  assert (Hlt : 3 < blockCursor twoChannels) by (vm_compute; reflexivity).
  split; [exact Hcur |]. split; [exact Hpos |].
  apply (proj1 (rewindToBlock_returns_iff (ToBlockID (blk 13)) twoChannels Hcur)).
  exists 3. auto.
Defined.

(** Channel 0 of [pruned] is not in the queue any more: invalidating it
    leaves the (empty) queue, resets [currentChannel] and moves the cursor
    back to block #10. *)
Lemma handleChannelInvalidated_keeps_older_witness :
  handleChannelInvalidated 0%nat pruned = Returned tt prunedInvalidated
  /\ channelQueue prunedInvalidated = channelQueue pruned
  /\ currentChannel prunedInvalidated = None
  /\ txChannels prunedInvalidated = txChannels pruned.
Proof.
  assert (Hrun : handleChannelInvalidated 0%nat pruned = Returned tt prunedInvalidated)
    by (vm_compute; reflexivity).
  assert (Hout : 0%nat ∉ channelQueue pruned).
  { assert (Hq : channelQueue pruned = []) by (vm_compute; reflexivity).
    rewrite Hq. apply not_elem_of_nil. }
  destruct (handleChannelInvalidated_keeps_older 0%nat pruned tt prunedInvalidated Hrun)
    as (_ & _ & Hsame & Hcur & Htx & _).
  split; [exact Hrun |]. split; [exact (Hsame Hout) |]. split; [exact Hcur | exact Htx].
Defined.

(** [getReadyChannel] on [queued3] builds channel 0 and returns it. *)
Lemma getReadyChannel_channel_or_error_witness :
  getReadyChannel SpecChannel.outFactory (l1 95) queued3 = Returned (Some 0%nat, None) built3
  /\ blocks built3 = blocks queued3
  /\ txChannels built3 = txChannels queued3
  /\ (channelQueue built3 = channelQueue queued3
      \/ channelQueue built3 = channelQueue queued3 ++ [allocated queued3]).
Proof.
  assert (Hrun : getReadyChannel SpecChannel.outFactory (l1 95) queued3
                 = Returned (Some 0%nat, None) built3) by (vm_compute; reflexivity).
  destruct (getReadyChannel_channel_or_error SpecChannel.outFactory (l1 95) queued3 _ _ _ Hrun)
    as (_ & Hb & _ & Ht & _ & _ & Hq).
  split; [exact Hrun |]. split; [exact Hb |]. split; [exact Ht | exact Hq].
Defined.

(** With four blocks pending and a channel of three frames, [processBlocks]
    moves the cursor from 0 to 3: the channel refused block #13 as full. *)
Lemma processBlocks_advances_cursor_witness :
  bounded ensured4
  /\ processBlocks ensured4 = Returned None processed4
  /\ blockCursor ensured4 <= blockCursor processed4 <= queue.Len (blocks ensured4)
  /\ blockCursor processed4 = 3.
Proof.
  assert (Hb : bounded ensured4).
  { unfold bounded. vm_compute. repeat split; discriminate. }
  assert (Hrun : processBlocks ensured4 = Returned None processed4)
    by (vm_compute; reflexivity).
  destruct (processBlocks_advances_cursor ensured4 None processed4 Hb Hrun)
    as (_ & Hrange & _).
  split; [exact Hb |]. split; [exact Hrun |]. split; [exact Hrange |].
  vm_compute. reflexivity.
Defined.

(** [pruneChannels] for block #12 on [twoChannels] drops channel 0 and
    creates nothing. *)
Lemma only_TxData_creates_witness :
  exec steady SpecChannel.outFactory (CallPruneChannels (safe 12)) twoChannels
  = Returned tt prunedTwo
  /\ allocated prunedTwo = allocated twoChannels
  /\ channelQueue prunedTwo `sublist_of` channelQueue twoChannels.
Proof.
  assert (Hrun : exec steady SpecChannel.outFactory (CallPruneChannels (safe 12)) twoChannels
                 = Returned tt prunedTwo) by (vm_compute; reflexivity).
  destruct (only_TxData_creates steady SpecChannel.outFactory (CallPruneChannels (safe 12))
              twoChannels tt prunedTwo eq_refl Hrun) as (Ha & _ & _ & Hq & _).
  split; [exact Hrun |]. split; [exact Ha | exact Hq].
Defined.

(** The first [TxData] on [queued3] leaves the three blocks and [tip]. *)
Lemma blocks_kept_by_other_calls_witness :
  exec steady SpecChannel.outFactory (CallTxData (l1 95)) queued3 = Returned tt sent1
  /\ blocks sent1 = blocks queued3 /\ tip sent1 = tip queued3.
Proof.
  assert (Hrun : exec steady SpecChannel.outFactory (CallTxData (l1 95)) queued3
                 = Returned tt sent1) by (vm_compute; reflexivity).
  split; [exact Hrun |].
  exact (blocks_kept_by_other_calls steady SpecChannel.outFactory (CallTxData (l1 95))
           queued3 tt sent1 I Hrun).
Defined.

(** A fresh manager has nothing to send. *)
Lemma TxData_idle_witness :
  TxData steady SpecChannel.outFactory (l1 95) fresh = Returned (emptyTxData, Some EOF) fresh.
Proof.
  apply TxData_idle.
  - constructor.
  - reflexivity.
Defined.

(** With three blocks pending, no channel yet and a factory that fails,
    [TxData] returns the wrapped error and [queued3] is as it was. *)
Lemma TxData_factory_error_witness :
  failingFactory (defaultCfg queued3) (allocated queued3) = inl (ErrExternal 7)
  /\ TxData steady failingFactory (l1 95) queued3
     = Returned (emptyTxData, Some (ErrCreatingChannelOut (ErrExternal 7))) queued3.
Proof.
  split; [reflexivity |].
  apply TxData_factory_error.
  - assert (Hq : channelQueue queued3 = []) by (vm_compute; reflexivity).
    rewrite Hq. constructor.
  - vm_compute. discriminate.
  - assert (Hc : currentChannel queued3 = None) by (vm_compute; reflexivity).
    rewrite Hc. exact I.
  - reflexivity.
Defined.

(** In [prunedTwo], where channel 0 was pruned from the queue, the current
    channel 1 is the last (and only) channel of the queue. *)
Lemma run_keeps_current_at_tail_witness :
  initial steady fresh
  /\ run steady SpecChannel.outFactory (twoChannelsRun ++ [CallPruneChannels (safe 12)]) fresh
     = Returned tt prunedTwo
  /\ (forall p, currentChannel prunedTwo = Some p ->
                channelQueue prunedTwo = [] \/ last (channelQueue prunedTwo) = Some p)
  /\ currentChannel prunedTwo = Some 1%nat
  /\ channelQueue prunedTwo = [1%nat].
Proof.
  assert (Hinit : initial steady fresh) by (left; exists noChannels; reflexivity).
  assert (Hrun : run steady SpecChannel.outFactory
                   (twoChannelsRun ++ [CallPruneChannels (safe 12)]) fresh
                 = Returned tt prunedTwo) by (vm_compute; reflexivity).
  split; [exact Hinit |]. split; [exact Hrun |].
  split; [| split; vm_compute; reflexivity].
  exact (run_keeps_current_at_tail steady SpecChannel.outFactory
           (twoChannelsRun ++ [CallPruneChannels (safe 12)]) fresh prunedTwo Hinit Hrun).
Defined.
